(** * Analysis.tsx: the product-analysis pipeline

    A shallow embedding of the orchestration code of [src/pages/Analysis.tsx]
    (the two API helpers [parseWebsite] and [fetchAnalysis], and the handler
    [handleAnalyze]) together with the few JavaScript built-ins it relies on
    ([JSON.parse], [String.prototype.match] for the one regular expression
    used, [typeof], object spread, [Promise.allSettled]).

    Conventions.
    - A JavaScript string is a Rocq [string] holding its UTF-8 bytes.  All
      characters the code inspects (braces, quotes, JSON punctuation) are
      ASCII, so they are single bytes in both views.
    - A JavaScript number produced by [JSON.parse] is kept as the exact
      decimal value of its literal, [mantissa * 10 ^ exponent]; the rounding
      to a double, which is a function of that value, is not applied.
    - The [progress] state is a real IEEE double, [PrimFloat.float], because
      the handler computes with it.
    - Effects are explicit: a computation maps the component state to an
      outcome, a new state and the list of events it emitted. *)

From Stdlib Require Import String Ascii List ZArith NArith Bool Lia.
From Stdlib Require Import DecimalString Permutation Floats.
Import ListNotations.

Open Scope string_scope.
Open Scope list_scope.

Set Warnings "-register-all".

(* ================================================================= *)
(** ** JavaScript values *)

Module JS.
#[local] Open Scope string_scope.

Inductive Value : Type :=
| Undefined
| Null
| Bool (b : bool)
| Number (mantissa exponent : Z)
| Str (s : string)
| Array (items : list Value)
| Object (props : list (string * Value)).

Inductive ErrorKind : Type := KError | KTypeError | KSyntaxError.

(** An exception object: its constructor and its [message]. *)
Record Exn : Type := mkExn { kind : ErrorKind; message : string }.

(** The double-quote and line-feed characters. *)
Definition dq : ascii := "034"%char.
Definition lf : ascii := "010"%char.
Definition quoted (s : string) : string :=
  String dq (s ++ String dq EmptyString).

(** [typeof v] *)
Definition typeof (v : Value) : string :=
  match v with
  | Undefined => "undefined"
  | Null => "object"
  | Bool _ => "boolean"
  | Number _ _ => "number"
  | Str _ => "string"
  | Array _ => "object"
  | Object _ => "object"
  end.

(** Own-property lookup and assignment on an object's property list, kept
    in insertion order.  Assigning an existing key keeps its position.
    (Integer-like keys, which an engine enumerates first, do not occur among
    the keys the handler enumerates.) *)
Fixpoint lookup (k : string) (props : list (string * Value)) : option Value :=
  match props with
  | [] => None
  | (k', v) :: rest => if String.eqb k k' then Some v else lookup k rest
  end.

Fixpoint set_prop (props : list (string * Value)) (k : string) (v : Value)
  : list (string * Value) :=
  match props with
  | [] => [(k, v)]
  | (k', v') :: rest =>
      if String.eqb k k' then (k, v) :: rest else (k', v') :: set_prop rest k v
  end.

(** [{...a, ...b}] *)
Definition spread (a b : list (string * Value)) : list (string * Value) :=
  fold_left (fun acc kv => set_prop acc (fst kv) (snd kv)) b a.

(** [Object.keys(o)] *)
Definition Object_keys (props : list (string * Value)) : list string :=
  map fst props.

(** [v.k] for a property name that no prototype defines: a [TypeError] on
    [null] and [undefined], the own property of an object, [undefined]
    otherwise.  The text of engine-raised errors is implementation-defined;
    one text is fixed here. *)
Definition cannot_read : Exn :=
  mkExn KTypeError "Cannot read properties of null or undefined".

Definition get_prop (v : Value) (k : string) : Exn + Value :=
  match v with
  | Undefined | Null => inl cannot_read
  | Object props =>
      match lookup k props with Some x => inr x | None => inr Undefined end
  | _ => inr Undefined
  end.

(** *** ToString *)

Definition digits_of (n : N) : string := NilZero.string_of_uint (N.to_uint n).

Fixpoint zeros (n : nat) : string :=
  match n with O => "" | S n' => String "0" (zeros n') end.

Definition take (n : nat) (s : string) : string := substring 0 n s.
Definition drop (n : nat) (s : string) : string := substring n (String.length s - n) s.

(** [Number::toString] on a normalised decimal (no trailing zero in the
    mantissa): the digits are those of the mantissa, which is what the engine
    prints whenever the literal is the shortest decimal of its double. *)
Definition number_to_string (m e : Z) : string :=
  if (m =? 0)%Z then "0" else
  let sign := if (m <? 0)%Z then "-" else "" in
  let ds := digits_of (Z.abs_N m) in
  let k := Z.of_nat (String.length ds) in
  let n := (k + e)%Z in
  sign ++
  (if ((k <=? n) && (n <=? 21))%Z then ds ++ zeros (Z.to_nat (n - k))
   else if ((0 <? n) && (n <=? 21))%Z then
     take (Z.to_nat n) ds ++ "." ++ drop (Z.to_nat n) ds
   else if ((-6 <? n) && (n <=? 0))%Z then
     "0." ++ zeros (Z.to_nat (- n)) ++ ds
   else
     let x := (n - 1)%Z in
     let es := (if (x <? 0)%Z then "-" else "+") ++ digits_of (Z.abs_N x) in
     if (k =? 1)%Z then ds ++ "e" ++ es
     else take 1 ds ++ "." ++ drop 1 ds ++ "e" ++ es).

Fixpoint join (sep : string) (l : list string) : string :=
  match l with
  | [] => ""
  | [x] => x
  | x :: rest => x ++ sep ++ join sep rest
  end.

Fixpoint to_string (v : Value) : string :=
  match v with
  | Undefined => "undefined"
  | Null => "null"
  | Bool true => "true"
  | Bool false => "false"
  | Number m e => number_to_string m e
  | Str s => s
  | Array items =>
      join "," (map (fun x => match x with
                              | Undefined | Null => ""
                              | _ => to_string x
                              end) items)
  | Object _ => "[object Object]"
  end.

(** [new Error(x)]: the message is absent (read back as the empty string)
    when [x] is [undefined], and [ToString(x)] otherwise. *)
Definition new_Error (x : Value) : Exn :=
  mkExn KError (match x with Undefined => "" | _ => to_string x end).

(** [s || fallback] on strings: the empty string is falsy. *)
Definition or_else (s fallback : string) : string :=
  match s with EmptyString => fallback | _ => s end.

End JS.

(* ================================================================= *)
(** ** [JSON.parse] *)

(** The JSON grammar of ECMA-404 as [JSON.parse] and [Response.json] read it:
    optional white space, one value, optional white space, end of input. *)

Module Json.
Import JS.
#[local] Open Scope string_scope.

Definition is_ws (c : ascii) : bool :=
  ((c =? " ") || (c =? "009") || (c =? "010") || (c =? "013"))%char.

Fixpoint skip_ws (s : string) : string :=
  match s with
  | String c r => if is_ws c then skip_ws r else s
  | EmptyString => s
  end.

Definition digit (c : ascii) : option Z :=
  let n := N_of_ascii c in
  if ((48 <=? n) && (n <=? 57))%N then Some (Z.of_N (n - 48)) else None.

Definition hex_digit (c : ascii) : option N :=
  let n := N_of_ascii c in
  if ((48 <=? n) && (n <=? 57))%N then Some (n - 48)%N
  else if ((65 <=? n) && (n <=? 70))%N then Some (n - 55)%N
  else if ((97 <=? n) && (n <=? 102))%N then Some (n - 87)%N
  else None.

Definition hex4 (a b c d : ascii) : option N :=
  match hex_digit a, hex_digit b, hex_digit c, hex_digit d with
  | Some x, Some y, Some z, Some w => Some (((x * 16 + y) * 16 + z) * 16 + w)%N
  | _, _, _, _ => None
  end.

(** UTF-8 bytes of a code point (a lone surrogate takes the three-byte form). *)
Definition utf8 (cp : N) : string :=
  let byte n := ascii_of_N n in
  let cont n := byte (128 + n mod 64)%N in
  if (cp <? 128)%N then String (byte cp) ""
  else if (cp <? 2048)%N then
    String (byte (192 + cp / 64)%N) (String (cont cp) "")
  else if (cp <? 65536)%N then
    String (byte (224 + cp / 4096)%N)
      (String (cont (cp / 64)%N) (String (cont cp) ""))
  else
    String (byte (240 + cp / 262144)%N)
      (String (cont (cp / 4096)%N)
         (String (cont (cp / 64)%N) (String (cont cp) ""))).

Definition is_high (u : N) : bool := ((55296 <=? u) && (u <=? 56319))%N.
Definition is_low (u : N) : bool := ((56320 <=? u) && (u <=? 57343))%N.

(** A low surrogate escape at the head of [s], if there is one. *)
Definition low_escape (s : string) : option N :=
  match s with
  | String "\" (String "u" (String a (String b (String c (String d _))))) =>
      match hex4 a b c d with
      | Some u => if is_low u then Some u else None
      | None => None
      end
  | _ => None
  end.

Definition simple_escape (c : ascii) : option ascii :=
  if (c =? dq)%char then Some dq
  else if (c =? "\")%char then Some "\"%char
  else if (c =? "/")%char then Some "/"%char
  else if (c =? "b")%char then Some "008"%char
  else if (c =? "f")%char then Some "012"%char
  else if (c =? "n")%char then Some "010"%char
  else if (c =? "r")%char then Some "013"%char
  else if (c =? "t")%char then Some "009"%char
  else None.

(** The characters of a string literal after its opening quote, up to and
    including the closing one.  [skip] counts the characters of an escape
    already consumed. *)
Fixpoint string_body (skip : nat) (s : string) : option (string * string) :=
  match s with
  | EmptyString => None
  | String c r =>
      match skip with
      | S k => string_body k r
      | O =>
          if (c =? dq)%char then Some ("", r)
          else if (c =? "\")%char then
            match r with
            | String "u" (String h1 (String h2 (String h3 (String h4 r2)))) =>
                match hex4 h1 h2 h3 h4 with
                | None => None
                | Some u =>
                    match (if is_high u then low_escape r2 else None) with
                    | Some lo =>
                        let cp := (65536 + (u - 55296) * 1024 + (lo - 56320))%N in
                        match string_body 11 r with
                        | Some (t, rest) => Some (utf8 cp ++ t, rest)
                        | None => None
                        end
                    | None =>
                        match string_body 5 r with
                        | Some (t, rest) => Some (utf8 u ++ t, rest)
                        | None => None
                        end
                    end
                end
            | String e _ =>
                match simple_escape e with
                | Some x =>
                    match string_body 1 r with
                    | Some (t, rest) => Some (String x t, rest)
                    | None => None
                    end
                | None => None
                end
            | EmptyString => None
            end
          else if (N_of_ascii c <? 32)%N then None
          else
            match string_body 0 r with
            | Some (t, rest) => Some (String c t, rest)
            | None => None
            end
      end
  end.

(** A run of decimal digits: its value, its length and the rest. *)
Fixpoint digits (acc : Z) (len : nat) (s : string) : Z * nat * string :=
  match s with
  | String c r =>
      match digit c with
      | Some d => digits (acc * 10 + d) (S len) r
      | None => (acc, len, s)
      end
  | EmptyString => (acc, len, s)
  end.

Fixpoint strip_zeros (fuel : nat) (m e : Z) : Z * Z :=
  match fuel with
  | O => (m, e)
  | S f =>
      if (m =? 0)%Z then (0, 0)%Z
      else if (m mod 10 =? 0)%Z then strip_zeros f (m / 10)%Z (e + 1)%Z
      else (m, e)
  end.

(** A number literal: an optional minus sign, an integer part without a
    superfluous leading zero, an optional fraction, an optional exponent. *)
Definition number (s : string) : option (Value * string) :=
  let '(neg, s1) :=
    match s with String "-" r => (true, r) | _ => (false, s) end in
  let '(ip, ilen, s2) := digits 0 0 s1 in
  let leading_zero :=
    match s1 with String "0" _ => Nat.ltb 1 ilen | _ => false end in
  if Nat.eqb ilen 0 || leading_zero then None else
  let frac :=
    match s2 with
    | String "." r =>
        let '(m, flen, s3) := digits ip 0 r in
        if Nat.eqb flen 0 then None else Some (m, flen, s3)
    | _ => Some (ip, O, s2)
    end in
  match frac with
  | None => None
  | Some (m, flen, s3) =>
      let expo :=
        match s3 with
        | String c r =>
            if ((c =? "e") || (c =? "E"))%char then
              let '(eneg, r1) :=
                match r with
                | String "-" r' => (true, r')
                | String "+" r' => (false, r')
                | _ => (false, r)
                end in
              let '(x, xlen, s4) := digits 0 0 r1 in
              if Nat.eqb xlen 0 then None
              else Some ((if eneg then - x else x)%Z, s4)
            else Some (0%Z, s3)
        | EmptyString => Some (0%Z, s3)
        end in
      match expo with
      | None => None
      | Some (x, s4) =>
          let '(m', e') :=
            strip_zeros (ilen + flen) (if neg then - m else m)%Z
                        (x - Z.of_nat flen)%Z in
          Some (Number m' e', s4)
      end
  end.

Fixpoint strip_prefix (p s : string) : option string :=
  match p, s with
  | EmptyString, _ => Some s
  | String a p', String b s' => if (a =? b)%char then strip_prefix p' s' else None
  | String _ _, EmptyString => None
  end.

(** One value at the head of [s] (after white space), and the rest. *)
Fixpoint value (fuel : nat) (s : string) : option (Value * string) :=
  match fuel with
  | O => None
  | S f =>
      match skip_ws s with
      | EmptyString => None
      | String c r as s' =>
          if (c =? "{")%char then
            match skip_ws r with
            | String "}" r' => Some (Object [], r')
            | r1 => members f [] r1
            end
          else if (c =? "[")%char then
            match skip_ws r with
            | String "]" r' => Some (Array [], r')
            | r1 => elements f [] r1
            end
          else if (c =? dq)%char then
            match string_body 0 r with
            | Some (t, rest) => Some (Str t, rest)
            | None => None
            end
          else if (c =? "t")%char then
            option_map (fun rest => (Bool true, rest)) (strip_prefix "true" s')
          else if (c =? "f")%char then
            option_map (fun rest => (Bool false, rest)) (strip_prefix "false" s')
          else if (c =? "n")%char then
            option_map (fun rest => (Null, rest)) (strip_prefix "null" s')
          else number s'
      end
  end

(** The members of an object after its opening brace: [acc] holds those read
    so far; a repeated key keeps its place and takes the later value. *)
with members (fuel : nat) (acc : list (string * Value)) (s : string)
  : option (Value * string) :=
  match fuel with
  | O => None
  | S f =>
      match skip_ws s with
      | String c r =>
          if (c =? dq)%char then
            match string_body 0 r with
            | Some (k, r1) =>
                match skip_ws r1 with
                | String ":" r2 =>
                    match value f r2 with
                    | Some (v, r3) =>
                        let acc' := set_prop acc k v in
                        match skip_ws r3 with
                        | String "," r4 => members f acc' r4
                        | String "}" r4 => Some (Object acc', r4)
                        | _ => None
                        end
                    | None => None
                    end
                | _ => None
                end
            | None => None
            end
          else None
      | EmptyString => None
      end
  end

with elements (fuel : nat) (acc : list Value) (s : string)
  : option (Value * string) :=
  match fuel with
  | O => None
  | S f =>
      match value f s with
      | Some (v, r) =>
          match skip_ws r with
          | String "," r' => elements f (acc ++ [v]) r'
          | String "]" r' => Some (Array (acc ++ [v]), r')
          | _ => None
          end
      | None => None
      end
  end.

(** [JSON.parse(text)]: [None] stands for the [SyntaxError]. *)
Definition parse (text : string) : option Value :=
  match value (S (String.length text)) text with
  | Some (v, rest) =>
      match skip_ws rest with EmptyString => Some v | _ => None end
  | None => None
  end.

End Json.

Import JS.

(* ================================================================= *)
(** ** Component state, events and effects *)

(** [FullAnalysisResult]: an object with at most the five catalog keys. *)
Definition FullAnalysisResult : Type := list (string * Value).

(** The [useState] cells of the [Analysis] component. *)
Record State : Type := mkState {
  url : string;
  isLoading : bool;
  loadingStage : string;
  progress : float;
  error : option string;
  results : option FullAnalysisResult
}.

Inductive LogArg : Type :=
| LogValue (v : Value)
| LogExn (e : Exn).

(** What a run does to the outside: the requests it issues, the lines it
    writes to the console, and the progress and stage values it hands to the
    rendering layer. *)
Inductive Event : Type :=
| Fetch (endpoint : string) (payload : Value)
| ConsoleError (args : list LogArg)
| Progress (value : float)
| Stage (label : string).

(** How an asynchronous computation ends: with a value, with an exception,
    or never (it awaits a promise that does not settle). *)
Inductive Outcome (A : Type) : Type :=
| Return (a : A)
| Throw (e : Exn)
| Pending.
Arguments Return {A} a.
Arguments Throw {A} e.
Arguments Pending {A}.

Definition M (A : Type) : Type := State -> Outcome A * State * list Event.

Definition ret {A} (a : A) : M A := fun s => (Return a, s, []).
Definition throw {A} (e : Exn) : M A := fun s => (Throw e, s, []).
Definition pending {A} : M A := fun s => (Pending, s, []).

Definition bind {A B} (m : M A) (k : A -> M B) : M B :=
  fun s =>
    let '(o, s1, t1) := m s in
    match o with
    | Return a => let '(o2, s2, t2) := k a s1 in (o2, s2, t1 ++ t2)
    | Throw e => (Throw e, s1, t1)
    | Pending => (Pending, s1, t1)
    end.

Declare Scope js_scope.
Delimit Scope js_scope with js.
Notation "x <- m ;; k" := (bind m (fun x => k))
  (at level 100, m at next level, right associativity) : js_scope.
Notation "m ;; k" := (bind m (fun _ => k))
  (at level 100, right associativity) : js_scope.
Open Scope js_scope.

(** [try { m } catch (e) { h e }] *)
Definition try_catch {A} (m : M A) (h : Exn -> M A) : M A :=
  fun s =>
    let '(o, s1, t1) := m s in
    match o with
    | Throw e => let '(o2, s2, t2) := h e s1 in (o2, s2, t1 ++ t2)
    | _ => (o, s1, t1)
    end.

(** [try { m } finally { f }] *)
Definition try_finally {A} (m : M A) (f : M unit) : M A :=
  fun s =>
    let '(o, s1, t1) := m s in
    match o with
    | Pending => (Pending, s1, t1)
    | _ =>
        let '(o2, s2, t2) := f s1 in
        match o2 with
        | Return _ => (o, s2, t1 ++ t2)
        | Throw e => (Throw e, s2, t1 ++ t2)
        | Pending => (Pending, s2, t1 ++ t2)
        end
    end.

Definition emit (e : Event) : M unit := fun s => (Return tt, s, [e]).
Definition get : M State := fun s => (Return s, s, []).
Definition put (s : State) : M unit := fun _ => (Return tt, s, []).

Definition lift {A} (r : Exn + A) : M A :=
  match r with inl e => throw e | inr a => ret a end.

(** Functional updates of the state cells. *)
Definition with_isLoading (s : State) (b : bool) : State :=
  mkState (url s) b (loadingStage s) (progress s) (error s) (results s).
Definition with_loadingStage (s : State) (l : string) : State :=
  mkState (url s) (isLoading s) l (progress s) (error s) (results s).
Definition with_progress (s : State) (v : float) : State :=
  mkState (url s) (isLoading s) (loadingStage s) v (error s) (results s).
Definition with_error (s : State) (e : option string) : State :=
  mkState (url s) (isLoading s) (loadingStage s) (progress s) e (results s).
Definition with_results (s : State) (r : option FullAnalysisResult) : State :=
  mkState (url s) (isLoading s) (loadingStage s) (progress s) (error s) r.

(** The state setters.  [setProgress] and [setLoadingStage] feed the progress
    bar and the stage heading, so each call is also an event. *)
Definition setIsLoading (b : bool) : M unit :=
  s <- get ;; put (with_isLoading s b).

Definition setError (e : option string) : M unit :=
  s <- get ;; put (with_error s e).

Definition setResults (r : option FullAnalysisResult) : M unit :=
  s <- get ;; put (with_results s r).

Definition setLoadingStage (label : string) : M unit :=
  s <- get ;; put (with_loadingStage s label) ;; emit (Stage label).

(** [setProgress(prev => f(prev))]; [setProgress(v)] is the constant update. *)
Definition updateProgress (f : float -> float) : M unit :=
  s <- get ;;
  let v := f (progress s) in
  put (with_progress s v) ;; emit (Progress v).

Definition setProgress (v : float) : M unit := updateProgress (fun _ => v).

Definition console_error (args : list LogArg) : M unit :=
  emit (ConsoleError args).

(* ================================================================= *)
(** ** The prompts *)

Module Prompts.
#[local] Open Scope string_scope.

Record Prompt : Type := mkPrompt { query : string; expectedFormat : string }.

Definition lines (l : list string) : string := join (String lf "") l.
Definition q := quoted.

Definition foodPreference : Prompt := mkPrompt
  "Analyze the food product and determine if it's vegetarian, non-vegetarian, or contains eggs. Provide a clear classification."
  (lines
     [ "Return JSON in this exact format:";
       "{";
       "  " ++ q "category" ++ ": " ++ q "veg|non-veg|egg" ++ ",";
       "  " ++ q "description" ++ ": "
         ++ q "Brief explanation of why this classification was chosen";
       "}" ]).

Definition healthGrade : Prompt := mkPrompt
  "Grade this food product's healthiness from A (excellent) to E (poor) based on ingredients, nutritional value, processing level, and overall health impact."
  (lines
     [ "Return JSON in this exact format:";
       "{";
       "  " ++ q "grade" ++ ": " ++ q "A|B|C|D|E" ++ ",";
       "  " ++ q "title" ++ ": "
         ++ q "Short title like 'Excellent Choice' or 'Poor Quality'" ++ ",";
       "  " ++ q "description" ++ ": "
         ++ q "2-3 sentence explanation of why this grade was given" ++ ",";
       "  " ++ q "factors" ++ ": [" ++ q "factor1" ++ ", " ++ q "factor2"
         ++ ", " ++ q "factor3" ++ "]";
       "}" ]).

Definition riskAssessment : Prompt := mkPrompt
  "Assess the health risk level of this product for a general consumer. Rate from 1-100 where 1 is lowest risk and 100 is highest risk."
  (lines
     [ "Return JSON in this exact format:";
       "{";
       "  " ++ q "riskScore" ++ ": 25,";
       "  " ++ q "riskLevel" ++ ": " ++ q "low|medium|high" ++ ",";
       "  " ++ q "description" ++ ": "
         ++ q "Brief explanation of the primary risk factors";
       "}" ]).

Definition allergenAnalysis : Prompt := mkPrompt
  "Identify potential common allergens (like nuts, gluten, dairy, soy) in this product. Provide specific warnings if present."
  (lines
     [ "Return JSON in this exact format:";
       "{";
       "  " ++ q "hasAllergens" ++ ": true,";
       "  " ++ q "alerts" ++ ": [";
       "    {";
       "      " ++ q "allergen" ++ ": " ++ q "allergen name" ++ ",";
       "      " ++ q "severity" ++ ": " ++ q "high|medium|low" ++ ",";
       "      " ++ q "description" ++ ": " ++ q "Specific warning message" ++ ",";
       "      " ++ q "icon" ++ ": " ++ q "⚠️";
       "    }";
       "  ]";
       "}" ]).

Definition nutritionFacts : Prompt := mkPrompt
  "Extract and calculate nutritional information per serving including calories, protein, fat, carbohydrates, fiber, sugar, and sodium. Infer values if not explicitly present."
  (lines
     [ "Return JSON in this exact format:";
       "{";
       "  " ++ q "servingSize" ++ ": " ++ q "100g" ++ ",";
       "  " ++ q "nutrients" ++ ": {";
       "    " ++ q "Calories" ++ ": 250,";
       "    " ++ q "Protein" ++ ": " ++ q "12g" ++ ",";
       "    " ++ q "Total Fat" ++ ": " ++ q "8g" ++ ",";
       "    " ++ q "Carbohydrates" ++ ": " ++ q "35g" ++ ",";
       "    " ++ q "Dietary Fiber" ++ ": " ++ q "3g" ++ ",";
       "    " ++ q "Total Sugars" ++ ": " ++ q "5g" ++ ",";
       "    " ++ q "Sodium" ++ ": " ++ q "450mg";
       "  }";
       "}" ]).

End Prompts.

(* ================================================================= *)
(** ** API helpers *)

(** What the server (or the network) answers to one request: the [fetch]
    promise rejects, or it resolves to a response whose [ok] flag tells a
    2xx status and whose body is the text sent back. *)
Record Response : Type := mkResponse { ok : bool; body : string }.

Inductive FetchOutcome : Type :=
| NetworkError (e : Exn)
| Responds (r : Response).

Definition API_BASE_URL : string := "http://localhost:3000".

(** [fetch(API_BASE_URL + path, {method: 'POST', ..., body: JSON.stringify(payload)})]:
    the request is issued at the call; the event keeps the payload object. *)
Definition fetch_post (path : string) (payload : Value) : M unit :=
  emit (Fetch (API_BASE_URL ++ path)%string payload).

(** [await] on the promise [fetch] returned. *)
Definition await_fetch (reply : FetchOutcome) : M Response :=
  match reply with
  | NetworkError e => throw e
  | Responds r => ret r
  end.

(** The [SyntaxError] of [JSON.parse]; its text varies with the engine and
    the input, one text is fixed here. *)
Definition syntax_error : Exn := mkExn KSyntaxError "Unexpected token in JSON".

(** [JSON.parse(text)] *)
Definition JSON_parse (text : string) : M Value :=
  match Json.parse text with
  | Some v => ret v
  | None => throw syntax_error
  end.

(** [await response.json()] and [await response.text()] *)
Definition response_json (r : Response) : M Value := JSON_parse (body r).
Definition response_text (r : Response) : M string := ret (body r).

(** [parseWebsite], from the point where the response has arrived. *)
Definition parseWebsite_resume (reply : FetchOutcome) : M Value :=
  response <- await_fetch reply ;;
  if negb (ok response) then
    errorData <-
      try_catch (response_json response)
        (fun _ => ret (Object [("error", Str "Failed to parse website content.")])) ;;
    msg <- lift (get_prop errorData "error") ;;
    throw (new_Error msg)
  else response_json response.

Definition parseWebsite (reply : FetchOutcome) (url : string) : M Value :=
  fetch_post "/parse-website" (Object [("url", Str url)]) ;;
  parseWebsite_resume reply.

(** The regular expression [/\{[\s\S]*\}/]. *)

(** [[\s\S]*\}] at the head of [s], greedy: the longest prefix of [s] that
    ends with a closing brace. *)
Fixpoint upto_last_close (s : string) : option string :=
  match s with
  | EmptyString => None
  | String c rest =>
      match upto_last_close rest with
      | Some m => Some (String c m)
      | None => if (c =? "}")%char then Some (String c EmptyString) else None
      end
  end.

(** [s.match(/\{[\s\S]*\}/)]: the match at the leftmost position where one
    exists; [jsonMatch[0]] when there is one. *)
Fixpoint match_braces (s : string) : option string :=
  match s with
  | EmptyString => None
  | String c rest =>
      if (c =? "{")%char then
        match upto_last_close rest with
        | Some m => Some (String c m)
        | None => match_braces rest
        end
      else match_braces rest
  end.

(** [answer.match(re)] as a method call on an arbitrary value. *)
Definition not_a_function : Exn :=
  mkExn KTypeError "data.answer.match is not a function".

Definition String_match (answer : Value) : M (option string) :=
  match answer with
  | Str s => ret (match_braces s)
  | Undefined | Null => throw cannot_read
  | _ => throw not_a_function
  end.

(** The [try]/[catch] of [fetchAnalysis] (lines 130 to 142), which turns the
    parsed response body [data] into the step's result. *)
Definition coerce (data : Value) : M Value :=
  try_catch
    (answer <- lift (get_prop data "answer") ;;
     if String.eqb (typeof answer) "object" then ret answer
     else
       jsonMatch <- String_match answer ;;
       match jsonMatch with
       | Some m => JSON_parse m
       | None => throw (mkExn KError "No valid JSON found in LLM response.")
       end)
    (fun e =>
       answer <- lift (get_prop data "answer") ;;
       console_error [LogValue (Str "JSON parsing error:"); LogExn e;
                      LogValue (Str "Raw response:"); LogValue answer] ;;
       throw (mkExn KError "Invalid JSON format received from the server.")).

(** [fetchAnalysis] in two halves: the request, issued when the function is
    called, and the rest, run when the response has arrived. *)
Definition fetchAnalysis_send (query expectedFormat : string) : M unit :=
  let fullPrompt := (query ++ String lf (String lf "") ++ expectedFormat)%string in
  fetch_post "/llm-call" (Object [("query", Str fullPrompt)]).

Definition fetchAnalysis_resume (reply : FetchOutcome) : M Value :=
  response <- await_fetch reply ;;
  if negb (ok response) then
    errorText <- response_text response ;;
    throw (mkExn KError ("API call failed: " ++ errorText)%string)
  else
    data <- response_json response ;;
    coerce data.

Definition fetchAnalysis (reply : FetchOutcome) (query expectedFormat : string)
  : M Value :=
  fetchAnalysis_send query expectedFormat ;;
  fetchAnalysis_resume reply.

(* ================================================================= *)
(** ** The handler *)

Record AnalysisStep : Type := mkStep {
  key : string;
  prompt : Prompts.Prompt;
  stage : string
}.

Definition analysisSteps : list AnalysisStep :=
  [ mkStep "foodPreference" Prompts.foodPreference
      "2/6 - Analyzing food category...";
    mkStep "healthGrade" Prompts.healthGrade
      "3/6 - Calculating health grade...";
    mkStep "riskAssessment" Prompts.riskAssessment
      "4/6 - Assessing health risks...";
    mkStep "allergenAnalysis" Prompts.allergenAnalysis
      "5/6 - Checking for allergens...";
    mkStep "nutritionFacts" Prompts.nutritionFacts
      "6/6 - Extracting nutrition facts..." ].

Definition float_of_nat (n : nat) : float :=
  PrimFloat.of_uint63 (Uint63.of_Z (Z.of_nat n)).

(** [analysisSteps.length + 1], and the share of one step, [100 / totalSteps]. *)
Definition totalSteps : nat := length analysisSteps + 1.
Definition share : float := (100 / float_of_nat totalSteps)%float.

(** The surroundings of one run: the answer to the extraction request, the
    answer to the analysis request of each step (by its index in the
    catalog), and the order in which those answers arrive. *)
Record Env : Type := mkEnv {
  parse_reply : FetchOutcome;
  llm_reply : nat -> FetchOutcome;
  arrival : list nat
}.

(** A settled promise, as [Promise.allSettled] reports it. *)
Inductive Settled : Type :=
| Fulfilled (value : FullAnalysisResult)
| Rejected (reason : Exn).

Definition settle (m : M FullAnalysisResult) : M Settled :=
  fun s =>
    let '(o, s1, t1) := m s in
    match o with
    | Return v => (Return (Fulfilled v), s1, t1)
    | Throw e => (Return (Rejected e), s1, t1)
    | Pending => (Pending, s1, t1)
    end.

(** The callback of [analysisSteps.map] (lines 343 to 348).  An async function
    runs synchronously until it first has to wait, here for the response to
    the request [fetchAnalysis] has just issued: [step_launch] is that first
    part, [step_resume] the part run once the response is there. *)
Definition step_launch (step : AnalysisStep) : M unit :=
  setLoadingStage (stage step) ;;
  fetchAnalysis_send (Prompts.query (prompt step))
                     (Prompts.expectedFormat (prompt step)).

Definition step_resume (step : AnalysisStep) (reply : FetchOutcome)
  : M FullAnalysisResult :=
  result <- fetchAnalysis_resume reply ;;
  updateProgress (fun prev => prev + share)%float ;;
  ret [(key step, result)].

Fixpoint launch_all (steps : list AnalysisStep) : M unit :=
  match steps with
  | [] => ret tt
  | step :: rest => step_launch step ;; launch_all rest
  end.

(** The promises of the fan-out, by catalog index: [None] while pending. *)
Definition Promises : Type := nat -> option Settled.

Definition no_promise_settled : Promises := fun _ => None.

Definition record (p : Promises) (i : nat) (r : Settled) : Promises :=
  fun j => if Nat.eqb j i then Some r else p j.

(** The response to step [i] arrives: its callback resumes and its promise
    settles.  After its launch a callback touches shared state in one place
    only (the progress update on success, the console line on a response
    that cannot be coerced), so resuming it in one piece loses no
    interleaving.  An arrival for an index outside the catalog, or for a
    promise already settled, changes nothing. *)
Definition resume_one (env : Env) (p : Promises) (i : nat) : M Promises :=
  match nth_error analysisSteps i, p i with
  | Some step, None =>
      r <- settle (step_resume step (llm_reply env i)) ;;
      ret (record p i r)
  | _, _ => ret p
  end.

Fixpoint resume_all (env : Env) (p : Promises) (order : list nat) : M Promises :=
  match order with
  | [] => ret p
  | i :: rest => p' <- resume_one env p i ;; resume_all env p' rest
  end.

Fixpoint collect {A} (l : list (option A)) : option (list A) :=
  match l with
  | [] => Some []
  | Some a :: rest => option_map (cons a) (collect rest)
  | None :: _ => None
  end.

(** [await Promise.allSettled(analysisPromises)]: the outcomes in catalog
    order once every promise has settled, and no continuation before that. *)
Definition Promise_allSettled (n : nat) (p : Promises) : M (list Settled) :=
  match collect (map p (seq 0 n)) with
  | Some l => ret l
  | None => pending
  end.

(** The reducer of lines 352 to 360, and the fold over the settled results. *)
Definition merge (acc : FullAnalysisResult) (result : Settled)
  : M FullAnalysisResult :=
  match result with
  | Fulfilled value => ret (spread acc value)
  | Rejected reason =>
      console_error [LogValue (Str "A part of the analysis failed:");
                     LogExn reason] ;;
      ret acc
  end.

Fixpoint reduce (l : list Settled) (acc : FullAnalysisResult)
  : M FullAnalysisResult :=
  match l with
  | [] => ret acc
  | r :: rest => acc' <- merge acc r ;; reduce rest acc'
  end.

(** Lines 350 to 367: wait for every promise, merge, and publish. *)
Definition join_results (p : Promises) : M unit :=
  settledResults <- Promise_allSettled (length analysisSteps) p ;;
  finalResults <- reduce settledResults [] ;;
  if Nat.eqb (length (Object_keys finalResults)) 0 then
    throw (mkExn KError "All analysis steps failed. Please check the server logs.")
  else
    setResults (Some finalResults) ;;
    setProgress 100.

(** The [try] block of [handleAnalyze] after the extraction (lines 342 to
    367): every callback is launched in catalog order, the responses arrive
    in the order the surroundings decide, the results are joined. *)
Definition fan_out (env : Env) : M unit :=
  launch_all analysisSteps ;;
  p <- resume_all env no_promise_settled (arrival env) ;;
  join_results p.

Definition handleAnalyze (env : Env) : M unit :=
  s <- get ;;
  match url s with
  | EmptyString => setError (Some "Please enter a product URL.")
  | _ =>
      setIsLoading true ;;
      setError None ;;
      setResults None ;;
      setProgress 0 ;;
      try_finally
        (try_catch
           (setLoadingStage "1/6 - Parsing website content..." ;;
            _ <- parseWebsite (parse_reply env) (url s) ;;
            setProgress share ;;
            fan_out env)
           (fun err =>
              setError (Some (or_else (message err) "An unknown error occurred."))))
        (setIsLoading false)
  end.

(** One run: the handler applied to the state the component is in when the
    form is submitted.  [initial u] is the state of a freshly mounted
    component whose input holds [u]. *)
Definition run (env : Env) (s : State) : Outcome unit * State * list Event :=
  handleAnalyze env s.

Definition initial (u : string) : State := mkState u false "" 0 None None.

(* ================================================================= *)
(** ** Observations *)

Definition outcome {A} (r : Outcome A * State * list Event) : Outcome A :=
  fst (fst r).
Definition final {A} (r : Outcome A * State * list Event) : State :=
  snd (fst r).
Definition trace {A} (r : Outcome A * State * list Event) : list Event :=
  snd r.

(** The projections of a trace on its progress values, its stage labels
    and its requests. *)
Definition progress_values (t : list Event) : list float :=
  flat_map (fun e => match e with Progress v => [v] | _ => [] end) t.
Definition stage_labels (t : list Event) : list string :=
  flat_map (fun e => match e with Stage l => [l] | _ => [] end) t.
Definition requests (t : list Event) : list (string * Value) :=
  flat_map (fun e => match e with Fetch u p => [(u, p)] | _ => [] end) t.

(** How the extraction ends on a given reply, and how the analysis call of
    one step does.  Neither depends on the component state. *)
Definition extraction (reply : FetchOutcome) : Outcome Value :=
  outcome (parseWebsite_resume reply (initial "")).
Definition analysis (reply : FetchOutcome) : Outcome Value :=
  outcome (fetchAnalysis_resume reply (initial "")).
Definition analysis_log (reply : FetchOutcome) : list Event :=
  trace (fetchAnalysis_resume reply (initial "")).

(** The catalog with its indices, and the steps that succeed in [env]. *)
Definition indexed : list (nat * AnalysisStep) :=
  combine (seq 0 (length analysisSteps)) analysisSteps.

Definition succeeded (env : Env) (i : nat) : bool :=
  match analysis (llm_reply env i) with Return _ => true | _ => false end.

Definition successful_keys (env : Env) : list string :=
  map (fun p => key (snd p)) (filter (fun p => succeeded env (fst p)) indexed).
Definition failed_keys (env : Env) : list string :=
  map (fun p => key (snd p))
      (filter (fun p => negb (succeeded env (fst p))) indexed).
Definition successes (env : Env) : nat :=
  length (filter (succeeded env) (seq 0 (length analysisSteps))).

(** The values [progress] takes when [share] is added [k] times from [p]. *)
Fixpoint climb (k : nat) (p : float) : list float :=
  match k with
  | O => []
  | S k' => (p + share)%float :: climb k' (p + share)%float
  end.

(** Occurrences of the character [c] in [s]. *)
Fixpoint occurs (c : ascii) (s : string) : bool :=
  match s with
  | EmptyString => false
  | String x r => (x =? c)%char || occurs c r
  end.

(** The two exceptions raised inside [coerce], the one it lets out, and the
    console line it writes before that. *)
Definition no_json_found : Exn :=
  mkExn KError "No valid JSON found in LLM response.".
Definition invalid_format : Exn :=
  mkExn KError "Invalid JSON format received from the server.".
Definition raw_log (e : Exn) (answer : Value) : Event :=
  ConsoleError [LogValue (Str "JSON parsing error:"); LogExn e;
                LogValue (Str "Raw response:"); LogValue answer].

(** The substrings of [text], as (offset, length), that are the text of a
    JSON object: an opening brace first, a closing brace last, and accepted
    by [JSON.parse]. *)
Definition is_object_text (t : string) : bool :=
  match t, Json.parse t with
  | String "{" _, Some (Object _) =>
      match String.get (String.length t - 1) t with
      | Some c => (c =? "}")%char
      | None => false
      end
  | _, _ => false
  end.

Definition json_objects_in (text : string) : list (nat * nat) :=
  filter (fun p => is_object_text (substring (fst p) (snd p) text))
    (flat_map (fun i => map (fun n => (i, n))
                          (seq 1 (String.length text - i)))
              (seq 0 (String.length text))).

(** Sample replies: a 2xx response with the given body, a non-2xx one. *)
Definition replies_ok (b : string) : FetchOutcome := Responds (mkResponse true b).
Definition replies_failure (b : string) : FetchOutcome :=
  Responds (mkResponse false b).

(** The body of an analysis response whose [answer] is the empty object. *)
Definition answer_empty_object : string :=
  ("{" ++ quoted "answer" ++ ":{}}")%string.

(** The events of the launch of the fan-out: for each step its stage label,
    then its request. *)
Definition llm_request (step : AnalysisStep) : Event :=
  Fetch (API_BASE_URL ++ "/llm-call")%string
    (Object [("query",
              Str (Prompts.query (prompt step) ++ String lf (String lf "")
                   ++ Prompts.expectedFormat (prompt step))%string)]).

Definition launch_events (steps : list AnalysisStep) : list Event :=
  flat_map (fun step => [Stage (stage step); llm_request step]) steps.

(** [progress] after [share] has been added [k] times to [p]. *)
Fixpoint raise (k : nat) (p : float) : float :=
  match k with
  | O => p
  | S k' => raise k' (p + share)%float
  end.

(** How the promise of a step settles, given how its analysis call ends. *)
Definition settlement (step : AnalysisStep) (o : Outcome Value)
  : option Settled :=
  match o with
  | Return v => Some (Fulfilled [(key step, v)])
  | Throw e => Some (Rejected e)
  | Pending => None
  end.

Definition promise_of (env : Env) (i : nat) : option Settled :=
  match nth_error analysisSteps i with
  | Some step => settlement step (analysis (llm_reply env i))
  | None => None
  end.

(** Each step of the catalog with the end of its analysis call, and the
    report entries the successful ones contribute. *)
Definition outcomes (env : Env) : list (AnalysisStep * Outcome Value) :=
  map (fun p => (snd p, analysis (llm_reply env (fst p)))) indexed.

Definition gains (l : list (AnalysisStep * Outcome Value))
  : FullAnalysisResult :=
  flat_map (fun so => match snd so with
                      | Return v => [(key (fst so), v)]
                      | _ => []
                      end) l.

Definition all_failed : Exn :=
  mkExn KError "All analysis steps failed. Please check the server logs.".

(** The reducer without its console line. *)
Definition absorb (acc : FullAnalysisResult) (r : Settled) : FullAnalysisResult :=
  match r with
  | Fulfilled value => spread acc value
  | Rejected _ => acc
  end.

(** The first label, the fallback message of the handler, and what a run
    does up to and including the extraction request. *)
Definition parsing_label : string := "1/6 - Parsing website content...".
Definition last_label : string := "6/6 - Extracting nutrition facts...".
Definition unknown_error : string := "An unknown error occurred.".

Definition parse_request (u : string) : Event :=
  Fetch (API_BASE_URL ++ "/parse-website")%string (Object [("url", Str u)]).

Definition prelude (u : string) : list Event :=
  [Progress 0; Stage parsing_label; parse_request u].

(** The state when the fan-out starts. *)
Definition analysing (u : string) : State :=
  mkState u true parsing_label share None None.

(** A complete arrival order: every step's response arrives, once. *)
Definition complete (order : list nat) : Prop :=
  Permutation order (seq 0 (length analysisSteps)).

(** A list of progress values that never goes down. *)
Fixpoint nondecreasing (l : list float) : bool :=
  match l with
  | a :: (b :: _) as rest => PrimFloat.leb a b && nondecreasing rest
  | _ => true
  end.

(** Sample surroundings: a server whose extraction succeeds and whose
    analysis calls all succeed, all fail, or fail except the first two. *)
Definition in_order : list nat := [0; 1; 2; 3; 4].

Definition all_succeed : Env :=
  mkEnv (replies_ok "{}") (fun _ => replies_ok answer_empty_object) in_order.

Definition all_fail : Env :=
  mkEnv (replies_ok "{}") (fun _ => replies_failure "timeout") in_order.

Definition two_succeed : Env :=
  mkEnv (replies_ok "{}")
        (fun i => if Nat.ltb i 2 then replies_ok answer_empty_object
                  else replies_failure "timeout")
        [4; 1; 3; 0; 2].

Definition extraction_refused : Env :=
  mkEnv (replies_failure ("{" ++ quoted "error" ++ ":" ++ quoted "blocked" ++ "}")%string)
        (fun _ => replies_ok answer_empty_object) in_order.

Definition example_url : string := "https://example.com/p1".

(** The fallback text of [parseWebsite], and surroundings in which the
    extraction is refused with the body [{}]. *)
Definition fallback_message : string := "Failed to parse website content.".

Definition refused_without_message : Env :=
  mkEnv (replies_failure "{}") (fun _ => replies_ok answer_empty_object) in_order.

(* ================================================================= *)
(** ** Further observations *)

(** The console lines of a trace. *)
Definition console (t : list Event) : list (list LogArg) :=
  flat_map (fun e => match e with ConsoleError a => [a] | _ => [] end) t.

(** The console line of the reducer for a rejected step, and the lines for
    the rejected steps of a list, in its order. *)
Definition failure_line (reason : Exn) : list LogArg :=
  [LogValue (Str "A part of the analysis failed:"); LogExn reason].

Definition failure_lines (l : list (AnalysisStep * Outcome Value))
  : list (list LogArg) :=
  flat_map (fun so => match snd so with
                      | Throw e => [failure_line e]
                      | _ => []
                      end) l.

(** Sample states and surroundings: a component left over from an earlier
    run, a server one of whose analysis responses never arrives, and a
    server whose every [answer] is [null]. *)
Definition leftover (u : string) : State :=
  mkState u false last_label 100 (Some "old error")
    (Some [("foodPreference", Object [])]).

Definition one_hangs : Env :=
  mkEnv (replies_ok "{}") (fun _ => replies_ok answer_empty_object) [3; 0; 1; 4].

Definition answer_null : string := ("{" ++ quoted "answer" ++ ":null}")%string.

Definition all_null : Env :=
  mkEnv (replies_ok "{}") (fun _ => replies_ok answer_null) in_order.

(** Surroundings in which only the first step is answered, with a
    vegetarian verdict. *)
Definition answer_veg : string :=
  ("{" ++ quoted "answer" ++ ":{" ++ quoted "category" ++ ":" ++ quoted "veg"
   ++ "}}")%string.

Definition only_food : Env :=
  mkEnv (replies_ok "{}")
        (fun i => if Nat.eqb i 0 then replies_ok answer_veg
                  else replies_failure "timeout")
        in_order.


(* ================================================================= *)
(** ** What the component renders *)

(** The element tree returned by the [Analysis] component (lines 376 to
    472).  An element keeps its type (a tag, or the name of the component it
    refers to: the imported ones and the five cards are not expanded), its
    attributes in source order and its children.  A function-valued
    attribute is kept as the name of the function it calls. *)
Inductive Attr : Type :=
| AStr (s : string)
| ABool (b : bool)
| ANum (x : float)
| AData (v : Value)
| AHandler (name : string).

Inductive Node : Type :=
| Element (type : string) (attrs : list (string * Attr)) (children : list Node)
| Text (s : string)
| Nothing.

(** Truthiness of a value, and what React shows for a value used as a child:
    text for a string or a number, nothing for a boolean, [null] or
    [undefined].  (Only falsy values reach [shown], through [and_then].) *)
Definition truthy (v : Value) : bool :=
  match v with
  | Undefined | Null => false
  | Bool b => b
  | Number m _ => negb (m =? 0)%Z
  | Str s => negb (String.eqb s "")
  | Array _ | Object _ => true
  end.

Definition shown (v : Value) : Node :=
  match v with
  | Str s => Text s
  | Number m e => Text (number_to_string m e)
  | _ => Nothing
  end.

(** [{v && node}] *)
Definition and_then (v : Value) (node : Node) : Node :=
  if truthy v then node else shown v.

(** [results.k] *)
Definition field (r : FullAnalysisResult) (k : string) : Value :=
  match lookup k r with Some v => v | None => Undefined end.

Definition style_sheet : string :=
"
        @keyframes fadeIn { from { opacity: 0; transform: translateY(10px); } to { opacity: 1; transform: translateY(0); } }
        .animate-fadeIn { animation: fadeIn 0.5s ease-in-out; }
        .card-hover { transition: transform 0.2s ease-in-out, box-shadow 0.2s ease-in-out; }
        .card-hover:hover { transform: translateY(-5px); box-shadow: 0 10px 15px -3px rgb(0 0 0 / 0.1), 0 4px 6px -4px rgb(0 0 0 / 0.1); }
        .risk-meter { width: 200px; height: 100px; position: relative; overflow: hidden; border-radius: 100px 100px 0 0; background: conic-gradient(from -90deg at 50% 100%, #10b981, #f59e0b, #ef4444); border: 10px solid #f3f4f6; }
        .meter-needle { position: absolute; bottom: 0; left: 50%; width: 4px; height: 90px; background: #1f2937; transform-origin: bottom center; transition: transform 0.8s cubic-bezier(0.68, -0.55, 0.27, 1.55); border-radius: 4px 4px 0 0; }
      ".

Definition page_header : Node :=
  Element "header" [("className", AStr "mb-8")]
    [ Element "h1"
        [("className", AStr "text-4xl font-extrabold text-gray-800 tracking-tight")]
        [Text "Product Analysis Dashboard"];
      Element "p" [("className", AStr "mt-2 text-lg text-gray-500")]
        [Text "Enter a product URL to get an instant health and nutritional analysis."] ].

Definition form_card (s : State) : Node :=
  Element "Card" [("className", AStr "mb-8 shadow-lg")]
    [ Element "CardContent" [("className", AStr "p-6")]
        [ Element "form"
            [("onSubmit", AHandler "handleAnalyze");
             ("className", AStr "flex flex-col sm:flex-row items-center gap-4")]
            [ Element "div" [("className", AStr "relative w-full")]
                [ Element "Search"
                    [("className",
                      AStr "absolute left-3 top-1/2 -translate-y-1/2 w-5 h-5 text-gray-400")]
                    [];
                  Element "Input"
                    [("type", AStr "url");
                     ("placeholder", AStr "https://www.amazon.in/dp/...");
                     ("value", AStr (url s));
                     ("onChange", AHandler "setUrl");
                     ("className", AStr "pl-10 h-12 text-lg");
                     ("disabled", ABool (isLoading s))]
                    [] ];
              Element "Button"
                [("type", AStr "submit");
                 ("size", AStr "lg");
                 ("className", AStr "h-12 w-full sm:w-auto");
                 ("disabled", ABool (isLoading s))]
                [Text (if isLoading s then "Analyzing..." else "Analyze Product")] ] ] ].

(** [{isLoading && (...)}] *)
Definition loading_block (s : State) : Node :=
  if isLoading s then
    Element "div" [("className", AStr "text-center")]
      [ Element "h3"
          [("className", AStr "text-xl font-semibold text-health-primary mb-2")]
          [Text (loadingStage s)];
        Element "Progress"
          [("value", ANum (progress s));
           ("className", AStr "w-full max-w-lg mx-auto")]
          [] ]
  else Nothing.

(** [{error && (...)}]: [null] shows nothing, the empty string shows as
    empty text. *)
Definition error_block (s : State) : Node :=
  match error s with
  | None => Nothing
  | Some EmptyString => Text ""
  | Some msg =>
      Element "Alert" [("variant", AStr "destructive")]
        [ Element "AlertCircle" [("className", AStr "h-4 w-4")] [];
          Element "AlertTitle" [] [Text "Analysis Error"];
          Element "AlertDescription" [] [Text msg] ]
  end.

(** [{!isLoading && !results && (...)}] *)
Definition placeholder_block (s : State) : Node :=
  if negb (isLoading s)
     && negb (match results s with Some _ => true | None => false end)
  then
    Element "div"
      [("className",
        AStr "text-center py-16 px-6 bg-white rounded-lg shadow-md border")]
      [ Element "Sparkles"
          [("className", AStr "mx-auto h-12 w-12 text-gray-300")] [];
        Element "h2"
          [("className", AStr "mt-4 text-2xl font-semibold text-gray-700")]
          [Text "Ready for Analysis"];
        Element "p" [("className", AStr "mt-2 text-gray-500")]
          [Text "Your product insights will appear here once you submit a URL."] ]
  else Nothing.

(** [{results.k && <Card data={results.k} />}] *)
Definition card (component : string) (r : FullAnalysisResult) (k : string)
  : Node :=
  and_then (field r k) (Element component [("data", AData (field r k))] []).

(** [{results && (...)}] *)
Definition results_block (s : State) : Node :=
  match results s with
  | None => Nothing
  | Some r =>
      Element "div"
        [("className",
          AStr "grid grid-cols-1 md:grid-cols-2 lg:grid-cols-3 gap-6 animate-fadeIn")]
        [ Element "div" [("className", AStr "flex flex-col gap-6")]
            [ card "FoodPreferenceCard" r "foodPreference";
              card "HealthGradeCard" r "healthGrade" ];
          Element "div" [("className", AStr "flex flex-col gap-6")]
            [ card "RiskMeterCard" r "riskAssessment";
              card "AllergenCard" r "allergenAnalysis" ];
          Element "div" [("className", AStr "md:col-span-2 lg:col-span-1")]
            [ card "NutritionCard" r "nutritionFacts" ] ]
  end.

Definition Analysis (s : State) : Node :=
  Element "main"
    [("className", AStr "min-h-screen bg-gray-50/50 p-4 sm:p-6 md:p-8")]
    [ Element "style" [] [Text style_sheet];
      Element "div" [("className", AStr "max-w-7xl mx-auto")]
        [ page_header;
          form_card s;
          loading_block s;
          error_block s;
          placeholder_block s;
          results_block s ] ].

(** The elements of a given type in a tree, in document order. *)
Fixpoint elements (ty : string) (n : Node) : list Node :=
  match n with
  | Element t attrs children =>
      (if String.eqb t ty then [n] else [])
        ++ flat_map (elements ty) children
  | _ => []
  end.

(** The card component that shows the result stored under a catalog key. *)
Definition card_of (k : string) : string :=
  if String.eqb k "foodPreference" then "FoodPreferenceCard"
  else if String.eqb k "healthGrade" then "HealthGradeCard"
  else if String.eqb k "riskAssessment" then "RiskMeterCard"
  else if String.eqb k "allergenAnalysis" then "AllergenCard"
  else "NutritionCard".

(** The needle angle of [RiskMeterCard] (line 227), on the score's declared
    type. *)
#[warnings="-inexact-float"]
Definition rotation (riskScore : float) : float :=
  ((riskScore - 50) * 1.8)%float.


(* ================================================================= *)
(** ** Progress between two waits *)

(** A run is a chain of continuations.  The handler runs until it has
    nothing left to do before a response arrives (line 339, or line 350 with
    the callbacks suspended at line 345), and is resumed by the arrival of a
    response.  The arrival that settles the last promise also resumes the
    handler after line 350, with no response awaited in between: lines 346
    and 352 to 367 then run in one piece.

    [arrivals] is the trace of [resume_all], one list per arrival. *)
Fixpoint arrivals (env : Env) (p : Promises) (order : list nat) (s : State)
  : list (list Event) :=
  match order with
  | [] => []
  | i :: rest =>
      let '(o, s1, t1) := resume_one env p i s in
      t1 :: match o with
            | Return p1 => arrivals env p1 rest s1
            | _ => []
            end
  end.

(** [t] appended to the last piece of [pieces]. *)
Fixpoint glue_last (pieces : list (list Event)) (t : list Event)
  : list (list Event) :=
  match pieces with
  | [] => [t]
  | [e] => [e ++ t]
  | e :: rest => e :: glue_last rest t
  end.

(** The state in which the handler waits for the first analysis response,
    and what the handler writes once the promises are joined. *)
Definition launched (u : string) : State :=
  with_loadingStage (analysing u) last_label.

Definition join_trace (env : Env) (s : State) : list Event :=
  match resume_all env no_promise_settled (arrival env) s with
  | (Return p, s1, _) => trace (join_results p s1)
  | _ => []
  end.

(** The trace of a run, cut where the handler waits for a response: up to
    the extraction request; from the extraction's response to the launch of
    the last callback; then one piece per analysis response, the last of
    them running on into the join. *)
Definition episodes (env : Env) (s : State) : list (list Event) :=
  match url s with
  | EmptyString => [trace (run env s)]
  | _ =>
      match extraction (parse_reply env) with
      | Return _ =>
          prelude (url s)
          :: glue_last
               ((Progress share :: launch_events analysisSteps)
                :: arrivals env no_promise_settled (arrival env)
                     (launched (url s)))
               (join_trace env (launched (url s)))
      | _ => [prelude (url s)]
      end
  end.

(** The progress a piece leaves behind: the last value it passes to
    [setProgress], if it passes any.  [progress_at_rest] lists them piece by
    piece: the values [progress] holds whenever the handler is waiting, and
    at the end of the run. *)
Definition last_progress (t : list Event) : list float :=
  match rev (progress_values t) with
  | v :: _ => [v]
  | [] => []
  end.

Definition progress_at_rest (pieces : list (list Event)) : list float :=
  flat_map last_progress pieces.

(** [d] picks some of the values of [l], in their order. *)
Inductive subsequence {A : Type} : list A -> list A -> Prop :=
| subsequence_nil : subsequence [] []
| subsequence_keep (a : A) (d l : list A) :
    subsequence d l -> subsequence (a :: d) (a :: l)
| subsequence_skip (a : A) (d l : list A) :
    subsequence d l -> subsequence d (a :: l).

(** No value is above a later one. *)
Fixpoint ordered (l : list float) : bool :=
  match l with
  | [] => true
  | a :: rest => forallb (PrimFloat.leb a) rest && ordered rest
  end.


(* ================================================================= *)
(** ** Projections of traces *)

Lemma progress_values_app (t1 t2 : list Event) :
  progress_values (t1 ++ t2) = progress_values t1 ++ progress_values t2.
Proof. apply flat_map_app. Qed.

Lemma stage_labels_app (t1 t2 : list Event) :
  stage_labels (t1 ++ t2) = stage_labels t1 ++ stage_labels t2.
Proof. apply flat_map_app. Qed.

Lemma requests_app (t1 t2 : list Event) :
  requests (t1 ++ t2) = requests t1 ++ requests t2.
Proof. apply flat_map_app. Qed.

Create Rewrite HintDb traces.
#[local] Hint Rewrite progress_values_app stage_labels_app requests_app
  app_nil_r : traces.

(** Closes a goal about a projection of a concatenated trace from the
    hypotheses on its parts. *)
Ltac by_parts :=
  autorewrite with traces;
  repeat match goal with
         | H : progress_values _ = _ |- _ => rewrite H; clear H
         | H : stage_labels _ = _ |- _ => rewrite H; clear H
         | H : requests _ = _ |- _ => rewrite H; clear H
         end;
  autorewrite with traces; try reflexivity.

(* ================================================================= *)
(** ** The API helpers do not touch the component state *)

Lemma parseWebsite_resume_pure (reply : FetchOutcome) (s : State) :
  parseWebsite_resume reply s = (extraction reply, s, []).
Proof.
  unfold extraction, outcome, parseWebsite_resume, bind.
  destruct reply as [e | [o b]]; simpl; [reflexivity |].
  destruct o; simpl; unfold response_json, JSON_parse, try_catch; simpl.
  - destruct (Json.parse b); reflexivity.
  - destruct (Json.parse b) as [v |]; simpl.
    + destruct (get_prop v "error"); reflexivity.
    + reflexivity.
Qed.

Lemma coerce_state (data : Value) (s : State) :
  coerce data s =
  (outcome (coerce data (initial "")), s, trace (coerce data (initial ""))).
Proof.
  unfold coerce, try_catch, bind, outcome, trace.
  destruct (get_prop data "answer") as [e | answer]; simpl; [reflexivity |].
  destruct (String.eqb (typeof answer) "object"); simpl; [reflexivity |].
  destruct answer; simpl; try reflexivity.
  destruct (match_braces s0) as [m |]; simpl; [| reflexivity].
  unfold JSON_parse. destruct (Json.parse m); reflexivity.
Qed.

Lemma fetchAnalysis_resume_state (reply : FetchOutcome) (s : State) :
  fetchAnalysis_resume reply s = (analysis reply, s, analysis_log reply).
Proof.
  unfold analysis, analysis_log, outcome, trace, fetchAnalysis_resume, bind,
    response_json, response_text, JSON_parse.
  destruct reply as [e | [o b]]; [reflexivity |].
  destruct o; [| reflexivity].
  cbn [await_fetch ret ok body negb].
  destruct (Json.parse b) as [data |]; [| reflexivity].
  cbn [ret throw].
  rewrite (coerce_state data s), (coerce_state data (initial "")).
  unfold outcome, trace.
  destruct (coerce data (initial "")) as [[o' s'] t'].
  reflexivity.
Qed.

Lemma analysis_settles (reply : FetchOutcome) : analysis reply <> Pending.
Proof.
  unfold analysis, outcome, fetchAnalysis_resume, bind, response_json,
    response_text, JSON_parse.
  destruct reply as [e | [o b]]; [discriminate |].
  destruct o; [| discriminate].
  cbn [await_fetch ret ok body negb].
  destruct (Json.parse b) as [data |]; [| discriminate].
  cbn [ret]. unfold coerce, try_catch, bind.
  destruct (get_prop data "answer") as [e | answer]; [discriminate |].
  cbn [lift ret].
  destruct (String.eqb (typeof answer) "object"); [discriminate |].
  destruct answer; try discriminate.
  cbn [String_match ret].
  destruct (match_braces s) as [m |]; [| discriminate].
  unfold JSON_parse. destruct (Json.parse m); discriminate.
Qed.

(** A call that succeeds writes nothing to the console; one that fails writes
    at most console lines. *)
Lemma analysis_log_shape (reply : FetchOutcome) :
  (forall v, analysis reply = Return v -> analysis_log reply = [])
  /\ progress_values (analysis_log reply) = []
  /\ stage_labels (analysis_log reply) = []
  /\ requests (analysis_log reply) = [].
Proof.
  unfold analysis, analysis_log, outcome, trace, fetchAnalysis_resume, bind,
    response_json, response_text, JSON_parse.
  destruct reply as [e | [o b]]; [repeat split; discriminate || reflexivity |].
  destruct o; [| repeat split; discriminate || reflexivity].
  cbn [await_fetch ret ok body negb].
  destruct (Json.parse b) as [data |];
    [| repeat split; discriminate || reflexivity].
  cbn [ret]. unfold coerce, try_catch, bind.
  destruct (get_prop data "answer") as [e | answer];
    [repeat split; discriminate || reflexivity |].
  cbn [lift ret].
  destruct (String.eqb (typeof answer) "object");
    [repeat split; reflexivity |].
  destruct answer; try (repeat split; discriminate || reflexivity).
  cbn [String_match ret].
  destruct (match_braces s) as [m |];
    [| repeat split; discriminate || reflexivity].
  unfold JSON_parse.
  destruct (Json.parse m); repeat split; discriminate || reflexivity.
Qed.

(* ================================================================= *)
(** ** The regular expression *)

Section Braces.
#[local] Open Scope string_scope.

Lemma upto_last_close_none (s : string) :
  upto_last_close s = None <-> occurs "}" s = false.
Proof.
  induction s as [| c r IH]; simpl; [tauto |].
  destruct (upto_last_close r) as [m |].
  - split; [discriminate |]. intros H.
    apply orb_false_iff in H. destruct H as [_ H].
    apply IH in H. discriminate.
  - destruct (Ascii.eqb c "}"); simpl; [split; discriminate |].
    split; intros _; [apply IH |]; reflexivity.
Qed.

Lemma upto_last_close_app (mid post : string) :
  occurs "}" post = false ->
  upto_last_close (mid ++ "}" ++ post) = Some (mid ++ "}").
Proof.
  intros Hpost. induction mid as [| c r IH]; simpl.
  - apply upto_last_close_none in Hpost. rewrite Hpost. reflexivity.
  - simpl in IH. rewrite IH. reflexivity.
Qed.

Lemma upto_last_close_some (s m : string) :
  upto_last_close s = Some m ->
  exists mid post,
    s = mid ++ "}" ++ post /\ m = mid ++ "}" /\ occurs "}" post = false.
Proof.
  revert m. induction s as [| c r IH]; simpl; intros m H; [discriminate |].
  destruct (upto_last_close r) as [m' |] eqn:E.
  - injection H as <-.
    destruct (IH m' eq_refl) as (mid & post & -> & -> & Hp).
    exists (String c mid), post. repeat split; assumption.
  - destruct (Ascii.eqb c "}") eqn:Ec; [| discriminate].
    injection H as <-. apply Ascii.eqb_eq in Ec. subst c.
    exists "", r. repeat split. apply upto_last_close_none. exact E.
Qed.

Lemma match_braces_no_close (s : string) :
  occurs "}" s = false -> match_braces s = None.
Proof.
  induction s as [| c r IH]; simpl; intros H; [reflexivity |].
  apply orb_false_iff in H. destruct H as [_ H].
  rewrite (IH H). apply upto_last_close_none in H. rewrite H.
  destruct (Ascii.eqb c "{"); reflexivity.
Qed.

(** The match is the stretch from the leftmost opening brace to the rightmost
    closing brace. *)
Lemma match_braces_app (pre mid post : string) :
  occurs "{" pre = false ->
  occurs "}" post = false ->
  match_braces (pre ++ "{" ++ mid ++ "}" ++ post) = Some ("{" ++ mid ++ "}").
Proof.
  intros Hpre Hpost. induction pre as [| c r IH]; simpl.
  - pose proof (upto_last_close_app mid post Hpost) as E.
    simpl in E. rewrite E. reflexivity.
  - simpl in Hpre. apply orb_false_iff in Hpre. destruct Hpre as [Hc Hr].
    rewrite Hc. apply IH. exact Hr.
Qed.

Lemma match_braces_some (s m : string) :
  match_braces s = Some m ->
  exists pre mid post,
    s = pre ++ "{" ++ mid ++ "}" ++ post /\ m = "{" ++ mid ++ "}"
    /\ occurs "{" pre = false /\ occurs "}" post = false.
Proof.
  revert m. induction s as [| c r IH]; simpl; intros m H; [discriminate |].
  destruct (Ascii.eqb c "{") eqn:Ec.
  - apply Ascii.eqb_eq in Ec. subst c.
    destruct (upto_last_close r) as [m' |] eqn:E.
    + injection H as <-.
      destruct (upto_last_close_some r m' E) as (mid & post & -> & -> & Hp).
      exists "", mid, post. repeat split. exact Hp.
    + apply upto_last_close_none in E.
      rewrite (match_braces_no_close r E) in H. discriminate.
  - destruct (IH m H) as (pre & mid & post & -> & -> & Hpre & Hpost).
    exists (String c pre), mid, post. repeat split; [| exact Hpost].
    simpl. rewrite Ec. exact Hpre.
Qed.

Lemma match_braces_none (s : string) :
  (forall a b c, s <> a ++ "{" ++ b ++ "}" ++ c) -> match_braces s = None.
Proof.
  intros H. destruct (match_braces s) as [m |] eqn:E; [| reflexivity].
  destruct (match_braces_some s m E) as (pre & mid & post & Hs & _).
  exfalso. exact (H pre mid post Hs).
Qed.

End Braces.

(* ================================================================= *)
(** ** Coercion of an analysis response *)

Section Coercion.
#[local] Open Scope string_scope.

(** What [coerce] does when [data.answer] is a string. *)
Lemma coerce_text (data : Value) (text : string) (s : State) :
  get_prop data "answer" = inr (Str text) ->
  coerce data s =
  match match_braces text with
  | Some m =>
      match Json.parse m with
      | Some v => (Return v, s, [])
      | None => (Throw invalid_format, s, [raw_log syntax_error (Str text)])
      end
  | None => (Throw invalid_format, s, [raw_log no_json_found (Str text)])
  end.
Proof.
  intros H. unfold coerce, try_catch, bind. rewrite H. cbn [lift ret typeof].
  cbn [String.eqb Ascii.eqb Bool.eqb String_match ret].
  destruct (match_braces text) as [m |]; [| reflexivity].
  unfold JSON_parse. destruct (Json.parse m); reflexivity.
Qed.

Lemma coerce_object (data answer : Value) (s : State) :
  get_prop data "answer" = inr answer ->
  typeof answer = "object" ->
  coerce data s = (Return answer, s, []).
Proof.
  intros H T. unfold coerce, try_catch, bind. rewrite H. cbn [lift ret].
  rewrite T. reflexivity.
Qed.

(** C6, as the code has it.  When [data.answer] is not text but an object
    (an array and [null] included) it is returned as it is.  When it is text
    made of a prefix without opening brace, a brace-delimited stretch that
    [JSON.parse] accepts, and a suffix without closing brace, the result is
    what [JSON.parse] gives on that stretch; nothing is written to the
    console and the state is left alone. *)
Theorem coerce_roundtrip (data answer : Value) (s : State) :
  get_prop data "answer" = inr answer ->
  (typeof answer = "object" -> coerce data s = (Return answer, s, []))
  /\ (forall pre mid post v,
        answer = Str (pre ++ "{" ++ mid ++ "}" ++ post) ->
        occurs "{" pre = false ->
        occurs "}" post = false ->
        Json.parse ("{" ++ mid ++ "}") = Some v ->
        coerce data s = (Return v, s, [])).
Proof.
  intros H. split.
  - intros T. apply coerce_object; assumption.
  - intros pre mid post v -> Hpre Hpost Hv.
    rewrite (coerce_text data _ s H).
    rewrite (match_braces_app pre mid post Hpre Hpost), Hv. reflexivity.
Qed.

Lemma coerce_roundtrip_witness :
  coerce (Object [("answer", Array [])]) (initial "") =
    (Return (Array []), initial "", [])
  /\ coerce (Object [("answer", Str "Here it is: {} Enjoy!")]) (initial "") =
    (Return (Object []), initial "", []).
Proof.
  split.
  - apply (proj1 (coerce_roundtrip (Object [("answer", Array [])]) (Array [])
                    (initial "") eq_refl)).
    reflexivity.
  - apply (proj2 (coerce_roundtrip
                    (Object [("answer", Str "Here it is: {} Enjoy!")])
                    (Str "Here it is: {} Enjoy!") (initial "") eq_refl)
             "Here it is: " "" " Enjoy!" (Object []));
      reflexivity.
Defined.

(** C6 as stated fails: the text [{} }] holds exactly one well-formed JSON
    object, [{}], followed by prose; the expression matches up to the last
    closing brace, the whole text, which does not parse. *)
Lemma coerce_roundtrip_counterexample :
  json_objects_in "{} }" = [(0, 2)]
  /\ Json.parse (substring 0 2 "{} }") = Some (Object [])
  /\ match_braces "{} }" = Some "{} }"
  /\ coerce (Object [("answer", Str "{} }")]) (initial "") =
       (Throw invalid_format, initial "",
        [raw_log syntax_error (Str "{} }")]).
Proof. repeat split; vm_compute; reflexivity. Qed.

(** C7.  When [data.answer] is text with no opening brace followed by a
    closing one, or text whose stretch from the leftmost opening brace to
    the rightmost closing brace is not JSON, [coerce] writes one console line
    holding the raw text and then throws the invalid-format error. *)
Theorem coerce_malformed (data : Value) (text : string) (s : State) :
  get_prop data "answer" = inr (Str text) ->
  (forall a b c, text <> a ++ "{" ++ b ++ "}" ++ c)
  \/ (exists pre mid post,
        text = pre ++ "{" ++ mid ++ "}" ++ post
        /\ occurs "{" pre = false /\ occurs "}" post = false
        /\ Json.parse ("{" ++ mid ++ "}") = None) ->
  exists e,
    coerce data s = (Throw invalid_format, s, [raw_log e (Str text)]).
Proof.
  intros H [Hnone | (pre & mid & post & -> & Hpre & Hpost & Hbad)];
    rewrite (coerce_text data _ s H).
  - rewrite (match_braces_none text Hnone). exists no_json_found. reflexivity.
  - rewrite (match_braces_app pre mid post Hpre Hpost), Hbad.
    exists syntax_error. reflexivity.
Qed.

Lemma coerce_malformed_witness :
  exists e,
    coerce (Object [("answer", Str "see {oops} above")]) (initial "") =
    (Throw invalid_format, initial "",
     [raw_log e (Str "see {oops} above")]).
Proof.
  apply (coerce_malformed (Object [("answer", Str "see {oops} above")])
           "see {oops} above" (initial "") eq_refl).
  right. exists "see ", "oops", " above". repeat split; reflexivity.
Defined.

End Coercion.

(* ================================================================= *)
(** ** The error of a failed extraction *)

Lemma extraction_server_message (b : string) (props : list (string * Value))
    (msg : string) :
  Json.parse b = Some (Object props) ->
  lookup "error" props = Some (Str msg) ->
  extraction (replies_failure b) = Throw (mkExn KError msg).
Proof.
  intros Hb Hl.
  unfold extraction, outcome, parseWebsite_resume, bind, try_catch,
    response_json, JSON_parse.
  cbn [replies_failure await_fetch ret ok body negb]. rewrite Hb.
  cbn [ret get_prop]. rewrite Hl. reflexivity.
Qed.

Lemma extraction_unreadable_body (b : string) :
  Json.parse b = None ->
  extraction (replies_failure b) = Throw (mkExn KError fallback_message).
Proof.
  intros Hb.
  unfold extraction, outcome, parseWebsite_resume, bind, try_catch,
    response_json, JSON_parse.
  cbn [replies_failure await_fetch ret ok body negb]. rewrite Hb. reflexivity.
Qed.

(** C8 at the failure body [{}], which is JSON but has no [error] field: the
    error thrown by [parseWebsite] has an empty message, not the fallback
    text an unreadable body gets, and the handler then shows its own
    fallback.  At the failure body [null] the error thrown is the engine's
    [TypeError]. *)
Theorem extraction_error_without_message :
  Json.parse "{}" = Some (Object [])
  /\ extraction (replies_failure "{}") = Throw (mkExn KError "")
  /\ extraction (replies_failure "{}") <> Throw (mkExn KError fallback_message)
  /\ error (final (run refused_without_message (initial example_url)))
     = Some unknown_error
  /\ extraction (replies_failure "null") = Throw cannot_read.
Proof.
  split; [reflexivity |]. split; [reflexivity |]. split; [discriminate |].
  split; reflexivity.
Qed.

(* ================================================================= *)
(** ** The fan-out, piece by piece *)

Lemma last_cons {A} (l : list A) (a d : A) : last (a :: l) d = last l a.
Proof.
  revert a d. induction l as [| b l IH]; intros a d; [reflexivity |].
  change (last (a :: b :: l) d) with (last (b :: l) d).
  rewrite (IH b d), (IH b a). reflexivity.
Qed.

(** The launch writes each label and issues each request, in catalog order,
    and changes nothing but the stage. *)
Lemma launch_all_spec (steps : list AnalysisStep) (s : State) :
  launch_all steps s =
  (Return tt,
   with_loadingStage s (last (map stage steps) (loadingStage s)),
   launch_events steps).
Proof.
  revert s. induction steps as [| step rest IH]; intros [u l st p e r].
  - reflexivity.
  - cbn [launch_all]. unfold bind at 1.
    assert (E : step_launch step (mkState u l st p e r) =
                (Return tt, mkState u l (stage step) p e r,
                 [Stage (stage step); llm_request step])) by reflexivity.
    rewrite E, IH. cbn [map]. rewrite last_cons. reflexivity.
Qed.

(** One callback resumed: on success the progress grows by one share and the
    promise is fulfilled with the one-key object; on failure the progress
    stays and the promise is rejected. *)
Lemma step_resume_spec (step : AnalysisStep) (reply : FetchOutcome) (s : State) :
  step_resume step reply s =
  match analysis reply with
  | Return v =>
      (Return [(key step, v)], with_progress s (progress s + share)%float,
       [Progress (progress s + share)%float])
  | Throw e => (Throw e, s, analysis_log reply)
  | Pending => (Pending, s, analysis_log reply)
  end.
Proof.
  unfold step_resume, bind. rewrite fetchAnalysis_resume_state.
  destruct (analysis reply) as [v | e |] eqn:E; try reflexivity.
  rewrite (proj1 (analysis_log_shape reply) v E). reflexivity.
Qed.

Lemma resume_one_spec (env : Env) (p : Promises) (i : nat) (s : State)
    (step : AnalysisStep) :
  nth_error analysisSteps i = Some step ->
  p i = None ->
  exists t,
    resume_one env p i s =
    (Return (fun j => if Nat.eqb j i then promise_of env i else p j),
     (if succeeded env i then with_progress s (progress s + share)%float else s),
     t)
    /\ progress_values t =
       (if succeeded env i then [(progress s + share)%float] else [])
    /\ stage_labels t = [] /\ requests t = [].
Proof.
  intros Hstep Hp. unfold resume_one, promise_of, succeeded.
  rewrite Hstep, Hp. unfold bind, settle. rewrite step_resume_spec.
  pose proof (analysis_settles (llm_reply env i)) as Hs.
  pose proof (analysis_log_shape (llm_reply env i)) as (_ & Hpv & Hsl & Hrq).
  destruct (analysis (llm_reply env i)) as [v | e |]; [| | contradiction].
  - eexists. split; [reflexivity |]. repeat split.
  - eexists. split; [reflexivity |].
    rewrite app_nil_r. repeat split; assumption.
Qed.

Lemma with_progress_idem (s : State) (a b : float) :
  with_progress (with_progress s a) b = with_progress s b.
Proof. reflexivity. Qed.

Lemma with_progress_same (s : State) : with_progress s (progress s) = s.
Proof. destruct s; reflexivity. Qed.

Lemma filter_length_perm {A} (f : A -> bool) (l l' : list A) :
  Permutation l l' -> length (filter f l) = length (filter f l').
Proof.
  induction 1 as [| x l l' _ IH | x y l | l l' l'' _ IH1 _ IH2]; simpl.
  - reflexivity.
  - destruct (f x); simpl; congruence.
  - destruct (f x), (f y); reflexivity.
  - congruence.
Qed.

(** The responses arrive in the order [order], each for a distinct pending
    step: each promise settles as its analysis call ends, the progress grows
    by one share per success, in arrival order, and no label is written nor
    request issued. *)
Lemma resume_all_spec (env : Env) (order : list nat) :
  NoDup order ->
  (forall i, In i order -> i < length analysisSteps) ->
  forall (p : Promises) (s : State),
    (forall i, In i order -> p i = None) ->
    exists p' t,
      resume_all env p order s =
      (Return p',
       with_progress s
         (raise (length (filter (succeeded env) order)) (progress s)),
       t)
      /\ (forall j, p' j = if existsb (Nat.eqb j) order
                           then promise_of env j else p j)
      /\ progress_values t =
         climb (length (filter (succeeded env) order)) (progress s)
      /\ stage_labels t = [] /\ requests t = [].
Proof.
  induction 1 as [| i rest Hnotin Hnodup IH]; intros Hrange p s Hp.
  - exists p, []. cbn [resume_all filter length raise climb existsb].
    rewrite with_progress_same. repeat split.
  - assert (Hi : nth_error analysisSteps i <> None)
      by (apply nth_error_Some, Hrange; left; reflexivity).
    destruct (nth_error analysisSteps i) as [step |] eqn:Hstep;
      [clear Hi | contradiction].
    destruct (resume_one_spec env p i s step Hstep (Hp i (or_introl eq_refl)))
      as (t1 & E1 & Hpv1 & Hsl1 & Hrq1).
    set (p1 := fun j => if Nat.eqb j i then promise_of env i else p j) in *.
    set (s1 := if succeeded env i
               then with_progress s (progress s + share)%float else s) in *.
    assert (Hp1 : forall j, In j rest -> p1 j = None).
    { intros j Hj. unfold p1.
      destruct (Nat.eqb j i) eqn:Eji.
      - apply Nat.eqb_eq in Eji. subst j. contradiction.
      - apply Hp. right. exact Hj. }
    destruct (IH (fun j Hj => Hrange j (or_intror Hj)) p1 s1 Hp1)
      as (p' & t2 & E2 & Hp' & Hpv2 & Hsl2 & Hrq2).
    exists p', (t1 ++ t2).
    cbn [resume_all]. unfold bind. rewrite E1, E2.
    split; [| split; [| split; [| split]]].
    + f_equal. f_equal. subst s1. cbn [filter].
      destruct (succeeded env i); reflexivity.
    + intros j. rewrite Hp'. cbn [existsb]. unfold p1.
      destruct (Nat.eqb j i) eqn:Eji.
      * apply Nat.eqb_eq in Eji. subst j.
        destruct (existsb (Nat.eqb i) rest); reflexivity.
      * reflexivity.
    + rewrite progress_values_app, Hpv1, Hpv2.
      subst s1. cbn [filter].
      destruct (succeeded env i); reflexivity.
    + by_parts.
    + by_parts.
Qed.

(** Whatever the arrivals, resuming callbacks writes no label and issues no
    request, and touches no state cell but the progress. *)
Lemma resume_all_quiet (env : Env) (order : list nat) :
  forall (p : Promises) (s : State),
    exists p' v t,
      resume_all env p order s = (Return p', with_progress s v, t)
      /\ stage_labels t = [] /\ requests t = [].
Proof.
  induction order as [| i rest IH]; intros p s.
  - exists p, (progress s), []. cbn [resume_all].
    rewrite with_progress_same. repeat split.
  - cbn [resume_all]. unfold bind.
    assert (E : exists p1 v1 t1,
               resume_one env p i s = (Return p1, with_progress s v1, t1)
               /\ stage_labels t1 = [] /\ requests t1 = []).
    { destruct (nth_error analysisSteps i) as [step |] eqn:Hstep.
      - destruct (p i) as [r |] eqn:Hpi.
        + exists p, (progress s), []. unfold resume_one.
          rewrite Hstep, Hpi, with_progress_same. repeat split.
        + destruct (resume_one_spec env p i s step Hstep Hpi)
            as (t1 & E1 & _ & Hsl1 & Hrq1).
          rewrite E1.
          exists (fun j => if Nat.eqb j i then promise_of env i else p j),
            (if succeeded env i then (progress s + share)%float
             else progress s), t1.
          split; [| split; assumption].
          destruct (succeeded env i);
            [reflexivity | rewrite with_progress_same; reflexivity].
      - exists p, (progress s), []. unfold resume_one.
        rewrite Hstep, with_progress_same. repeat split. }
    destruct E as (p1 & v1 & t1 & E1 & Hsl1 & Hrq1). rewrite E1.
    destruct (IH p1 (with_progress s v1)) as (p' & v & t2 & E2 & Hsl2 & Hrq2).
    rewrite E2. exists p', v, (t1 ++ t2).
    split; [reflexivity |]. split; by_parts.
Qed.

(** The fold over the settled results: the state is left alone, the only
    events are console lines, and the value is the pure fold. *)
Lemma reduce_spec (l : list Settled) :
  forall (acc : FullAnalysisResult) (s : State),
    exists t,
      reduce l acc s = (Return (fold_left absorb l acc), s, t)
      /\ progress_values t = [] /\ stage_labels t = [] /\ requests t = [].
Proof.
  induction l as [| r rest IH]; intros acc s.
  - exists []. repeat split.
  - destruct (IH (absorb acc r) s) as (t & E & Hpv & Hsl & Hrq).
    cbn [reduce fold_left]. unfold bind.
    destruct r as [value | reason].
    + exists t. cbn [merge ret absorb] in *. rewrite E. repeat split; assumption.
    + exists (ConsoleError [LogValue (Str "A part of the analysis failed:");
                            LogExn reason] :: t).
      cbn [merge absorb] in *. unfold console_error, emit, bind, ret.
      rewrite E. repeat split; assumption.
Qed.

Lemma set_prop_fresh (acc : FullAnalysisResult) (k : string) (v : Value) :
  ~ In k (map fst acc) -> set_prop acc k v = acc ++ [(k, v)].
Proof.
  induction acc as [| [k' v'] rest IH]; intros Hk; [reflexivity |].
  cbn [set_prop app]. cbn [map fst In] in Hk.
  destruct (String.eqb k k') eqn:E.
  - apply String.eqb_eq in E. subst k'. exfalso. apply Hk. left. reflexivity.
  - rewrite IH; [reflexivity |]. intros H. apply Hk. right. exact H.
Qed.

(** Merging settled promises whose keys are distinct and new appends the
    entries of the fulfilled ones, in order. *)
Lemma gains_absorb (prs : list (AnalysisStep * Outcome Value))
    (l : list Settled) :
  Forall2 (fun so r => settlement (fst so) (snd so) = Some r) prs l ->
  NoDup (map (fun so => key (fst so)) prs) ->
  forall acc,
    (forall so, In so prs -> ~ In (key (fst so)) (map fst acc)) ->
    fold_left absorb l acc = acc ++ gains prs.
Proof.
  induction 1 as [| [step o] r prs l Hr _ IH]; intros Hnd acc Hacc.
  - cbn. rewrite app_nil_r. reflexivity.
  - cbn [map fst] in Hnd. inversion Hnd as [| k ks Hk Hnd']; subst.
    cbn [fold_left]. cbn [fst snd] in Hr.
    destruct o as [v | e |]; cbn [settlement] in Hr; [| | discriminate];
      injection Hr as <-.
    + cbn [absorb spread fold_left fst snd].
      rewrite set_prop_fresh by (apply (Hacc (step, Return v)); left; reflexivity).
      rewrite IH; [| exact Hnd' |].
      * unfold gains. cbn [flat_map fst snd]. rewrite <- app_assoc. reflexivity.
      * intros so Hso Hin. rewrite map_app in Hin. apply in_app_or in Hin.
        destruct Hin as [Hin | [Hin | []]].
        -- exact (Hacc so (or_intror Hso) Hin).
        -- apply Hk. cbn [map fst] in Hin. rewrite Hin.
           apply (in_map (fun so => key (fst so)) prs so Hso).
    + cbn [absorb]. rewrite IH; [reflexivity | exact Hnd' |].
      intros so Hso. apply Hacc. right. exact Hso.
Qed.

Lemma collect_settlements (prs : list (AnalysisStep * Outcome Value)) :
  Forall (fun so => snd so <> Pending) prs ->
  exists l,
    collect (map (fun so => settlement (fst so) (snd so)) prs) = Some l
    /\ Forall2 (fun so r => settlement (fst so) (snd so) = Some r) prs l.
Proof.
  induction 1 as [| [step o] prs Ho _ (l & El & Hl)].
  - exists []. split; [reflexivity | constructor].
  - cbn [snd] in Ho. cbn [map fst snd collect].
    destruct o as [v | e |]; [| | contradiction]; cbn [settlement];
      rewrite El; eexists; (split; [reflexivity |]);
      constructor; [reflexivity | exact Hl | reflexivity | exact Hl].
Qed.

Lemma outcomes_settle (env : Env) :
  Forall (fun so => snd so <> Pending) (outcomes env).
Proof.
  apply Forall_forall. intros so Hso. unfold outcomes in Hso.
  apply in_map_iff in Hso. destruct Hso as (p & <- & _).
  apply analysis_settles.
Qed.

Lemma keys_distinct (env : Env) :
  NoDup (map (fun so => key (fst so)) (outcomes env)).
Proof.
  change (NoDup ["foodPreference"; "healthGrade"; "riskAssessment";
                 "allergenAnalysis"; "nutritionFacts"]%string).
  repeat constructor; cbn [In]; intuition discriminate.
Qed.

(** The keys gained are those of the successful steps, in catalog order, and
    there are as many as there are successes. *)
Lemma gains_keys (env : Env) :
  Object_keys (gains (outcomes env)) = successful_keys env.
Proof.
  unfold Object_keys, outcomes, successful_keys, gains, succeeded.
  induction indexed as [| [i step] rest IH]; [reflexivity |].
  cbn [map flat_map filter fst snd].
  destruct (analysis (llm_reply env i)); cbn [app map fst snd];
    rewrite IH; reflexivity.
Qed.

Lemma successful_keys_length (env : Env) :
  length (successful_keys env) = successes env.
Proof.
  unfold successful_keys, successes. rewrite length_map.
  change (seq 0 (length analysisSteps)) with (map fst indexed).
  induction indexed as [| [i step] rest IH]; [reflexivity |].
  cbn [map filter fst]. destruct (succeeded env i); cbn [length]; rewrite IH;
    reflexivity.
Qed.

(** Once every promise has settled as its analysis call ended, the join
    throws when no step succeeded and otherwise publishes the merged report
    and sets the progress to 100. *)
Lemma join_results_spec (env : Env) (p : Promises) (s : State) :
  (forall j, j < length analysisSteps -> p j = promise_of env j) ->
  exists t,
    join_results p s =
    (if Nat.eqb (successes env) 0 then Throw all_failed else Return tt,
     if Nat.eqb (successes env) 0 then s
     else with_progress (with_results s (Some (gains (outcomes env)))) 100,
     t ++ (if Nat.eqb (successes env) 0 then [] else [Progress 100]))
    /\ progress_values t = [] /\ stage_labels t = [] /\ requests t = [].
Proof.
  intros Hp. unfold join_results, Promise_allSettled.
  assert (E : map p (seq 0 (length analysisSteps)) =
              map (fun so => settlement (fst so) (snd so)) (outcomes env)).
  { transitivity (map (promise_of env) (seq 0 (length analysisSteps))).
    - apply map_ext_in. intros j Hj. apply Hp. apply in_seq in Hj. lia.
    - reflexivity. }
  rewrite E.
  destruct (collect_settlements (outcomes env) (outcomes_settle env))
    as (l & El & Hl).
  rewrite El. unfold bind. cbn [ret].
  destruct (reduce_spec l [] s) as (t & Er & Hpv & Hsl & Hrq).
  rewrite Er.
  rewrite (gains_absorb (outcomes env) l Hl (keys_distinct env) [])
    by (intros so _ []).
  cbn [app]. rewrite gains_keys, successful_keys_length.
  exists t. split; [| repeat split; assumption].
  destruct (Nat.eqb (successes env) 0); reflexivity.
Qed.

Lemma join_results_quiet (p : Promises) (s : State) :
  stage_labels (trace (join_results p s)) = []
  /\ requests (trace (join_results p s)) = []
  /\ loadingStage (final (join_results p s)) = loadingStage s.
Proof.
  unfold join_results, Promise_allSettled, bind.
  destruct (collect (map p (seq 0 (length analysisSteps)))) as [l |];
    [| repeat split].
  cbn [ret].
  destruct (reduce_spec l [] s) as (t & Er & _ & Hsl & Hrq). rewrite Er.
  unfold stage_labels, requests in *.
  destruct (Nat.eqb (length (Object_keys (fold_left absorb l []))) 0);
    unfold setResults, setProgress, updateProgress, bind, get, put, emit;
    cbn [throw trace final fst snd app loadingStage with_progress with_results];
    rewrite ?app_nil_r, ?flat_map_app, ?Hsl, ?Hrq; repeat split.
Qed.

(** The fan-out under a complete arrival order. *)
Lemma fan_out_spec (env : Env) (s : State) :
  complete (arrival env) ->
  exists t,
    fan_out env s =
    (if Nat.eqb (successes env) 0 then Throw all_failed else Return tt,
     (let s' := with_progress (with_loadingStage s last_label)
                  (raise (successes env) (progress s)) in
      if Nat.eqb (successes env) 0 then s'
      else with_progress (with_results s' (Some (gains (outcomes env)))) 100),
     launch_events analysisSteps ++ t
       ++ (if Nat.eqb (successes env) 0 then [] else [Progress 100]))
    /\ progress_values t = climb (successes env) (progress s)
    /\ stage_labels t = [] /\ requests t = [].
Proof.
  intros Hperm. unfold complete in Hperm.
  assert (Hnd : NoDup (arrival env))
    by (apply (Permutation_NoDup (Permutation_sym Hperm)), seq_NoDup).
  assert (Hrange : forall i, In i (arrival env) -> i < length analysisSteps).
  { intros i Hi. apply (Permutation_in _ Hperm), in_seq in Hi. lia. }
  assert (Hk : length (filter (succeeded env) (arrival env)) = successes env)
    by (apply filter_length_perm; exact Hperm).
  unfold fan_out, bind at 1. rewrite launch_all_spec.
  set (s0 := with_loadingStage s (last (map stage analysisSteps) (loadingStage s))).
  destruct (resume_all_spec env (arrival env) Hnd Hrange no_promise_settled s0
              (fun _ _ => eq_refl))
    as (p' & t1 & E1 & Hp' & Hpv1 & Hsl1 & Hrq1).
  rewrite Hk in E1, Hpv1.
  assert (Hall : forall j, j < length analysisSteps -> p' j = promise_of env j).
  { intros j Hj. rewrite Hp'.
    assert (Hin : In j (arrival env)).
    { apply (Permutation_in _ (Permutation_sym Hperm)), in_seq. lia. }
    assert (Hex : existsb (Nat.eqb j) (arrival env) = true).
    { apply existsb_exists. exists j. split; [exact Hin | apply Nat.eqb_refl]. }
    rewrite Hex. reflexivity. }
  unfold bind. rewrite E1.
  destruct (join_results_spec env p'
              (with_progress s0 (raise (successes env) (progress s0))) Hall)
    as (t2 & E2 & Hpv2 & Hsl2 & Hrq2).
  rewrite E2. exists (t1 ++ t2).
  split; [| split; [| split]].
  - rewrite <- !app_assoc. subst s0. destruct s. reflexivity.
  - rewrite progress_values_app, Hpv1, Hpv2. apply app_nil_r.
  - by_parts.
  - by_parts.
Qed.

(** The fan-out under any arrivals: the launch comes first and in catalog
    order, and nothing after it writes a label or issues a request. *)
Lemma fan_out_quiet (env : Env) (s : State) :
  exists t,
    trace (fan_out env s) = launch_events analysisSteps ++ t
    /\ stage_labels t = [] /\ requests t = []
    /\ loadingStage (final (fan_out env s)) = last_label.
Proof.
  set (s0 := with_loadingStage s (last (map stage analysisSteps) (loadingStage s))).
  destruct (resume_all_quiet env (arrival env) no_promise_settled s0)
    as (p' & v & t1 & E1 & Hsl1 & Hrq1).
  pose proof (join_results_quiet p' (with_progress s0 v)) as (Hsl2 & Hrq2 & Hst).
  destruct (join_results p' (with_progress s0 v)) as [[o s2] t2] eqn:E2.
  cbn [trace final fst snd] in Hsl2, Hrq2, Hst.
  assert (E : fan_out env s = (o, s2, launch_events analysisSteps ++ t1 ++ t2)).
  { unfold fan_out, bind. rewrite launch_all_spec. fold s0. rewrite E1, E2.
    destruct o; reflexivity. }
  rewrite E. cbn [trace final fst snd].
  exists (t1 ++ t2). split; [reflexivity |]. split; [| split].
  - by_parts.
  - by_parts.
  - exact Hst.
Qed.

Lemma extraction_settles (reply : FetchOutcome) : extraction reply <> Pending.
Proof.
  unfold extraction, outcome, parseWebsite_resume, bind, try_catch,
    response_json, JSON_parse.
  destruct reply as [e | [o b]]; [discriminate |].
  cbn [await_fetch ret ok body negb].
  destruct o; cbn [negb]; destruct (Json.parse b) as [v |]; try discriminate.
  cbn [ret]. destruct (get_prop v "error"); discriminate.
Qed.

(** The handler on a non-empty URL, in terms of the extraction and of the
    fan-out. *)
Lemma run_nonempty (env : Env) (s : State) :
  url s <> "" ->
  run env s =
  match extraction (parse_reply env) with
  | Return _ =>
      let '(o, s', t) := fan_out env (analysing (url s)) in
      (match o with Pending => Pending | _ => Return tt end,
       match o with
       | Return _ => with_isLoading s' false
       | Throw e =>
           with_isLoading
             (with_error s' (Some (or_else (message e) unknown_error))) false
       | Pending => s'
       end,
       prelude (url s) ++ [Progress share] ++ t)
  | Throw e =>
      (Return tt,
       mkState (url s) false parsing_label 0
         (Some (or_else (message e) unknown_error)) None,
       prelude (url s))
  | Pending =>
      (Pending, mkState (url s) true parsing_label 0 None None,
       prelude (url s))
  end.
Proof.
  intros Hu. destruct s as [u l st p e res]. cbn [url] in *.
  destruct u as [| c r]; [contradiction |].
  unfold run, handleAnalyze, bind at 1. cbn [get url].
  unfold try_finally, try_catch, parseWebsite.
  unfold setIsLoading, setError, setResults, setProgress, updateProgress,
    setLoadingStage, fetch_post, bind, get, put, emit.
  cbn [with_isLoading with_error with_results with_progress with_loadingStage
       url isLoading loadingStage progress error results app].
  rewrite parseWebsite_resume_pure.
  destruct (extraction (parse_reply env)) as [v | e' |]; [| reflexivity ..].
  change (fan_out env _) with (fan_out env (analysing (String c r))).
  destruct (fan_out env (analysing (String c r))) as [[o s'] t].
  destruct o as [[] | e' |]; destruct s'; rewrite ?app_nil_r; reflexivity.
Qed.

(** A complete run after a successful extraction. *)
Lemma run_complete (env : Env) (s : State) (v : Value) :
  url s <> "" ->
  extraction (parse_reply env) = Return v ->
  complete (arrival env) ->
  exists t,
    run env s =
    (Return tt,
     (if Nat.eqb (successes env) 0
      then mkState (url s) false last_label share (Some (message all_failed)) None
      else mkState (url s) false last_label 100 None (Some (gains (outcomes env)))),
     prelude (url s) ++ [Progress share] ++ launch_events analysisSteps ++ t
       ++ (if Nat.eqb (successes env) 0 then [] else [Progress 100]))
    /\ progress_values t = climb (successes env) share
    /\ stage_labels t = [] /\ requests t = [].
Proof.
  intros Hu Hx Hc.
  rewrite (run_nonempty env s Hu), Hx.
  destruct (fan_out_spec env (analysing (url s)) Hc)
    as (t & E & Hpv & Hsl & Hrq).
  rewrite E. exists t. split; [| repeat split; assumption].
  destruct (Nat.eqb (successes env) 0) eqn:Ek.
  - apply Nat.eqb_eq in Ek. rewrite Ek. reflexivity.
  - reflexivity.
Qed.

Lemma success_counts (env : Env) (i : nat) :
  i < length analysisSteps -> succeeded env i = true ->
  Nat.eqb (successes env) 0 = false.
Proof.
  intros Hi Hs. apply Nat.eqb_neq. unfold successes.
  assert (Hin : In i (filter (succeeded env) (seq 0 (length analysisSteps)))).
  { apply filter_In. split; [apply in_seq; lia | exact Hs]. }
  destruct (filter (succeeded env) (seq 0 (length analysisSteps)));
    [destruct Hin | discriminate].
Qed.

Lemma no_success (env : Env) :
  (forall i, i < length analysisSteps -> succeeded env i = false) ->
  successes env = 0.
Proof.
  intros H. unfold successes.
  destruct (filter (succeeded env) (seq 0 (length analysisSteps)))
    as [| i l] eqn:E; [reflexivity |].
  assert (Hin : In i (filter (succeeded env) (seq 0 (length analysisSteps))))
    by (rewrite E; left; reflexivity).
  apply filter_In in Hin. destruct Hin as [Hi Hs].
  apply in_seq in Hi. rewrite H in Hs by lia. discriminate.
Qed.

Lemma keys_apart {A} (g : A -> string) (f : A -> bool) (l : list A) (k : string) :
  NoDup (map g l) ->
  In k (map g (filter f l)) ->
  ~ In k (map g (filter (fun x => negb (f x)) l)).
Proof.
  induction l as [| a l IH]; intros Hnd Hyes Hno; [destruct Hyes |].
  cbn [map] in Hnd. inversion Hnd as [| x xs Ha Hnd']; subst.
  assert (Hsub : forall h, In k (map g (filter h l)) -> In k (map g l)).
  { intros h Hin. apply in_map_iff in Hin. destruct Hin as (x & <- & Hx).
    apply filter_In in Hx. apply in_map. tauto. }
  cbn [filter] in Hyes, Hno. destruct (f a); cbn [negb map In] in Hyes, Hno.
  - destruct Hyes as [<- | Hyes].
    + apply Ha. apply (Hsub _ Hno).
    + exact (IH Hnd' Hyes Hno).
  - destruct Hno as [<- | Hno].
    + apply Ha. apply (Hsub _ Hyes).
    + exact (IH Hnd' Hyes Hno).
Qed.

(* ================================================================= *)
(** ** Properties of a run *)

(** C1.  When the extraction succeeds, every response arrives and at least
    one analysis step succeeds, the run ends without error and publishes a
    report whose keys are exactly the keys of the successful steps (in
    catalog order), none of them the key of a failed step, and as many as
    there are successful steps. *)
Theorem partial_success_report (env : Env) (s : State) (v : Value) :
  url s <> "" ->
  extraction (parse_reply env) = Return v ->
  complete (arrival env) ->
  (exists i, i < length analysisSteps /\ succeeded env i = true) ->
  exists report,
    outcome (run env s) = Return tt
    /\ error (final (run env s)) = None
    /\ results (final (run env s)) = Some report
    /\ report = gains (outcomes env)
    /\ Object_keys report = successful_keys env
    /\ (forall k, In k (failed_keys env) -> ~ In k (Object_keys report))
    /\ length report = successes env.
Proof.
  intros Hu Hx Hc (i & Hi & Hs).
  destruct (run_complete env s v Hu Hx Hc) as (t & E & _).
  rewrite (success_counts env i Hi Hs) in E. rewrite E.
  exists (gains (outcomes env)). cbn [outcome final fst snd error results].
  repeat split.
  - apply gains_keys.
  - intros k Hfail Hin. rewrite gains_keys in Hin.
    refine (keys_apart (fun p => key (snd p)) (fun p => succeeded env (fst p))
              indexed k _ Hin Hfail).
    change (NoDup ["foodPreference"; "healthGrade"; "riskAssessment";
                   "allergenAnalysis"; "nutritionFacts"]%string).
    repeat constructor; cbn [In]; intuition discriminate.
  - rewrite <- successful_keys_length, <- gains_keys.
    unfold Object_keys. rewrite length_map. reflexivity.
Qed.

Lemma partial_success_report_witness :
  exists report,
    outcome (run two_succeed (initial example_url)) = Return tt
    /\ error (final (run two_succeed (initial example_url))) = None
    /\ results (final (run two_succeed (initial example_url))) = Some report
    /\ report = gains (outcomes two_succeed)
    /\ Object_keys report = successful_keys two_succeed
    /\ (forall k, In k (failed_keys two_succeed) -> ~ In k (Object_keys report))
    /\ length report = successes two_succeed.
Proof.
  apply (partial_success_report two_succeed (initial example_url) (Object [])).
  - discriminate.
  - reflexivity.
  - unfold complete. cbn.
    apply Permutation_cons_app with (l1 := [0; 1; 2; 3]) (l2 := []).
    apply Permutation_cons_app with (l1 := [0]) (l2 := [2; 3]).
    apply Permutation_cons_app with (l1 := [0; 2]) (l2 := []).
    apply Permutation_refl.
  - exists 0. split; [cbn; lia | reflexivity].
Defined.

(** C2.  On a non-empty URL, when the extraction fails with [e], the handler
    ends with the message of [e] as the run's error ([unknown_error] standing
    in for an empty message), publishes no report, and has issued the
    extraction request and no other: the fan-out never starts. *)
Theorem extraction_failure_stops_run (env : Env) (s : State) (e : Exn) :
  url s <> "" ->
  extraction (parse_reply env) = Throw e ->
  outcome (run env s) = Return tt
  /\ error (final (run env s)) = Some (or_else (message e) unknown_error)
  /\ (message e <> "" -> error (final (run env s)) = Some (message e))
  /\ results (final (run env s)) = None
  /\ isLoading (final (run env s)) = false
  /\ trace (run env s) = prelude (url s)
  /\ requests (trace (run env s)) =
     [((API_BASE_URL ++ "/parse-website")%string, Object [("url", Str (url s))])].
Proof.
  intros Hu Hx. rewrite (run_nonempty env s Hu), Hx. cbn [outcome final trace fst snd error results isLoading].
  repeat split.
  intros Hm. destruct (message e); [contradiction | reflexivity].
Qed.

Lemma extraction_failure_stops_run_witness :
  outcome (run extraction_refused (initial example_url)) = Return tt
  /\ error (final (run extraction_refused (initial example_url))) =
     Some (or_else "blocked" unknown_error)
  /\ ("blocked" <> "" ->
      error (final (run extraction_refused (initial example_url))) = Some "blocked")
  /\ results (final (run extraction_refused (initial example_url))) = None
  /\ isLoading (final (run extraction_refused (initial example_url))) = false
  /\ trace (run extraction_refused (initial example_url)) = prelude example_url
  /\ requests (trace (run extraction_refused (initial example_url))) =
     [((API_BASE_URL ++ "/parse-website")%string,
       Object [("url", Str example_url)])].
Proof.
  apply (extraction_failure_stops_run extraction_refused (initial example_url)
           (mkExn KError "blocked")).
  - discriminate.
  - reflexivity.
Defined.

(** C3.  When the extraction succeeds, every response arrives and all five
    analysis steps fail, the handler ends with the all-steps-failed message
    as the run's error and publishes no report. *)
Theorem all_steps_failed (env : Env) (s : State) (v : Value) :
  url s <> "" ->
  extraction (parse_reply env) = Return v ->
  complete (arrival env) ->
  (forall i, i < length analysisSteps -> succeeded env i = false) ->
  outcome (run env s) = Return tt
  /\ error (final (run env s)) =
     Some "All analysis steps failed. Please check the server logs."
  /\ results (final (run env s)) = None
  /\ isLoading (final (run env s)) = false.
Proof.
  intros Hu Hx Hc Hall.
  destruct (run_complete env s v Hu Hx Hc) as (t & E & _).
  rewrite (no_success env Hall) in E. rewrite E. repeat split.
Qed.

Lemma all_steps_failed_witness :
  outcome (run all_fail (initial example_url)) = Return tt
  /\ error (final (run all_fail (initial example_url))) =
     Some "All analysis steps failed. Please check the server logs."
  /\ results (final (run all_fail (initial example_url))) = None
  /\ isLoading (final (run all_fail (initial example_url))) = false.
Proof.
  apply (all_steps_failed all_fail (initial example_url) (Object [])).
  - discriminate.
  - reflexivity.
  - apply Permutation_refl.
  - intros i _. reflexivity.
Defined.

(** C9.  When the URL is empty the handler returns at once with the error
    cell holding [Please enter a product URL.]; every other cell of the
    component state keeps the value it had, nothing is written to the
    console or to the progress and stage setters, and no request of either
    kind (extraction or analysis) is issued. *)
Theorem empty_url_rejected (env : Env) (s : State) :
  url s = "" ->
  outcome (run env s) = Return tt
  /\ error (final (run env s)) = Some "Please enter a product URL."
  /\ url (final (run env s)) = url s
  /\ isLoading (final (run env s)) = isLoading s
  /\ loadingStage (final (run env s)) = loadingStage s
  /\ progress (final (run env s)) = progress s
  /\ results (final (run env s)) = results s
  /\ trace (run env s) = []
  /\ requests (trace (run env s)) = [].
Proof.
  intros Hu.
  assert (E : run env s =
              (Return tt, with_error s (Some "Please enter a product URL."), [])).
  { unfold run, handleAnalyze, bind at 1. cbn [get]. rewrite Hu. reflexivity. }
  rewrite E. destruct s. repeat split.
Qed.

Lemma empty_url_rejected_witness :
  outcome (run all_succeed (initial "")) = Return tt
  /\ error (final (run all_succeed (initial ""))) =
     Some "Please enter a product URL."
  /\ url (final (run all_succeed (initial ""))) = ""
  /\ isLoading (final (run all_succeed (initial ""))) = false
  /\ loadingStage (final (run all_succeed (initial ""))) = ""
  /\ progress (final (run all_succeed (initial ""))) = 0%float
  /\ results (final (run all_succeed (initial ""))) = None
  /\ trace (run all_succeed (initial "")) = []
  /\ requests (trace (run all_succeed (initial ""))) = [].
Proof. apply (empty_url_rejected all_succeed (initial "")). reflexivity. Defined.

(** C10.  After a successful extraction, whatever the order in which the
    responses arrive (and even if some never do), the trace is the prelude,
    the first progress update, the launch of the five callbacks in catalog
    order (label, then request, for each), and a remainder in which no label
    is written and no request issued.  So the labels written are the first
    label followed by the catalog's labels in order, and the stage is left at
    the last one. *)
Theorem stage_labels_in_catalog_order (env : Env) (s : State) (v : Value) :
  url s <> "" ->
  extraction (parse_reply env) = Return v ->
  exists after,
    trace (run env s) =
      prelude (url s) ++ [Progress share] ++ launch_events analysisSteps ++ after
    /\ stage_labels after = []
    /\ requests after = []
    /\ stage_labels (trace (run env s)) =
       parsing_label :: map stage analysisSteps
    /\ loadingStage (final (run env s)) = last_label.
Proof.
  intros Hu Hx. rewrite (run_nonempty env s Hu), Hx.
  destruct (fan_out_quiet env (analysing (url s)))
    as (t & Et & Hsl & Hrq & Hst).
  destruct (fan_out env (analysing (url s))) as [[o s'] tr].
  cbn [trace final fst snd] in *. subst tr.
  exists t. split; [reflexivity |]. split; [exact Hsl |]. split; [exact Hrq |].
  split.
  - rewrite !stage_labels_app, Hsl. reflexivity.
  - destruct o; cbn [with_isLoading with_error loadingStage]; exact Hst.
Qed.

Lemma stage_labels_in_catalog_order_witness :
  exists after,
    trace (run two_succeed (initial example_url)) =
      prelude example_url ++ [Progress share]
        ++ launch_events analysisSteps ++ after
    /\ stage_labels after = []
    /\ requests after = []
    /\ stage_labels (trace (run two_succeed (initial example_url))) =
       parsing_label :: map stage analysisSteps
    /\ loadingStage (final (run two_succeed (initial example_url))) = last_label.
Proof.
  apply (stage_labels_in_catalog_order two_succeed (initial example_url) (Object [])).
  - discriminate.
  - reflexivity.
Defined.

(* ================================================================= *)
(** ** Progress *)

Lemma launch_events_progress (steps : list AnalysisStep) :
  progress_values (launch_events steps) = [].
Proof. induction steps as [| step rest IH]; [reflexivity | exact IH]. Qed.

(** The progress values of a complete run after a successful extraction:
    0, one share for the extraction, one more share per successful step, and
    100 at the end when some step succeeded. *)
Lemma run_progress_values (env : Env) (s : State) (v : Value) :
  url s <> "" ->
  extraction (parse_reply env) = Return v ->
  complete (arrival env) ->
  progress_values (trace (run env s)) =
  [0%float; share] ++ climb (successes env) share
    ++ (if Nat.eqb (successes env) 0 then [] else [100%float]).
Proof.
  intros Hu Hx Hc.
  destruct (run_complete env s v Hu Hx Hc) as (t & E & Hpv & _).
  rewrite E. cbn [trace snd].
  rewrite !progress_values_app, Hpv, launch_events_progress.
  destruct (Nat.eqb (successes env) 0); reflexivity.
Qed.

Lemma successes_bound (env : Env) : successes env <= length analysisSteps.
Proof.
  unfold successes.
  eapply Nat.le_trans; [apply filter_length_le |].
  rewrite length_seq. apply Nat.le_refl.
Qed.

(** C4, as the code has it.  A callback whose analysis call succeeds adds one
    share to the progress; one whose call fails leaves the state as it is and
    reports no progress.  So over a complete run the progress climbs by one
    share for the extraction and one per successful step. *)
Theorem progress_counts_successes (env : Env) (s : State) (v : Value) :
  url s <> "" ->
  extraction (parse_reply env) = Return v ->
  complete (arrival env) ->
  (forall step reply s0 r,
      analysis reply = Return r ->
      final (step_resume step reply s0)
        = with_progress s0 (progress s0 + share)%float
      /\ progress_values (trace (step_resume step reply s0))
        = [(progress s0 + share)%float])
  /\ (forall step reply s0 e,
      analysis reply = Throw e ->
      final (step_resume step reply s0) = s0
      /\ progress_values (trace (step_resume step reply s0)) = [])
  /\ progress_values (trace (run env s)) =
     [0%float; share] ++ climb (successes env) share
       ++ (if Nat.eqb (successes env) 0 then [] else [100%float]).
Proof.
  intros Hu Hx Hc. split; [| split].
  - intros step reply s0 r Hr. rewrite step_resume_spec, Hr. split; reflexivity.
  - intros step reply s0 e He. rewrite step_resume_spec, He.
    split; [reflexivity |]. apply analysis_log_shape.
  - exact (run_progress_values env s v Hu Hx Hc).
Qed.

Lemma progress_counts_successes_witness :
  progress_values (trace (run two_succeed (initial example_url))) =
  [0%float; share] ++ climb (successes two_succeed) share
    ++ (if Nat.eqb (successes two_succeed) 0 then [] else [100%float]).
Proof.
  apply (progress_counts_successes two_succeed (initial example_url) (Object [])).
  - discriminate.
  - reflexivity.
  - unfold complete. cbn.
    apply Permutation_cons_app with (l1 := [0; 1; 2; 3]) (l2 := []).
    apply Permutation_cons_app with (l1 := [0]) (l2 := [2; 3]).
    apply Permutation_cons_app with (l1 := [0; 2]) (l2 := []).
    apply Permutation_refl.
Defined.

(** C4 as stated fails: with the five analysis calls all failing, five steps
    have settled and the progress is still the single share of the
    extraction, not that share plus five. *)
Lemma progress_per_attempt_counterexample :
  complete (arrival all_fail)
  /\ successes all_fail = 0
  /\ progress_values (trace (run all_fail (initial example_url))) = [0%float; share]
  /\ progress (final (run all_fail (initial example_url))) = share
  /\ PrimFloat.eqb (progress (final (run all_fail (initial example_url))))
       (raise 5 share) = false.
Proof.
  split; [apply Permutation_refl |]. repeat split; vm_compute; reflexivity.
Qed.


(** Short of that case the values never go down. *)
Lemma progress_nondecreasing_below_five (env : Env) (s : State) (v : Value) :
  url s <> "" ->
  extraction (parse_reply env) = Return v ->
  complete (arrival env) ->
  successes env < length analysisSteps ->
  nondecreasing (progress_values (trace (run env s))) = true.
Proof.
  intros Hu Hx Hc Hk. rewrite (run_progress_values env s v Hu Hx Hc).
  cbn [length analysisSteps] in Hk.
  destruct (successes env) as [| [| [| [| [| k]]]]];
    [vm_compute; reflexivity .. | lia].
Qed.

(** The final progress is exactly 100 exactly when a report is published,
    and 100 is among the values delivered exactly then. *)
Lemma progress_hundred_iff_success (env : Env) (s : State) (v : Value) :
  url s <> "" ->
  extraction (parse_reply env) = Return v ->
  complete (arrival env) ->
  (progress (final (run env s)) = 100%float
   <-> results (final (run env s)) <> None)
  /\ (In 100%float (progress_values (trace (run env s)))
      <-> results (final (run env s)) <> None).
Proof.
  intros Hu Hx Hc.
  rewrite (run_progress_values env s v Hu Hx Hc).
  destruct (run_complete env s v Hu Hx Hc) as (t & E & _). rewrite E.
  cbn [final fst snd].
  destruct (Nat.eqb (successes env) 0) eqn:Ek; cbn [progress results].
  - apply Nat.eqb_eq in Ek. rewrite Ek. cbn [climb app In].
    assert (H0 : 0%float <> 100%float).
    { intros H. apply (f_equal (fun x => PrimFloat.eqb x 100)) in H.
      vm_compute in H. discriminate. }
    assert (H1 : share <> 100%float).
    { intros H. apply (f_equal (fun x => PrimFloat.eqb x 100)) in H.
      vm_compute in H. discriminate. }
    split; split; intros H; try contradiction; try (exfalso; apply H; reflexivity).
    destruct H as [H | [H | []]]; contradiction.
  - split; split; intros _; try discriminate; try reflexivity.
    apply in_or_app. right. apply in_or_app. right. left. reflexivity.
Qed.

(* ================================================================= *)
(** ** Progress while the handler waits *)

Lemma subsequence_nil_l {A} (l : list A) : subsequence [] l.
Proof.
  induction l as [| a l IH]; [constructor | apply subsequence_skip, IH].
Qed.

Lemma subsequence_refl {A} (l : list A) : subsequence l l.
Proof.
  induction l as [| a l IH]; [constructor | apply subsequence_keep, IH].
Qed.

Lemma subsequence_app {A} (d1 l1 d2 l2 : list A) :
  subsequence d1 l1 -> subsequence d2 l2 ->
  subsequence (d1 ++ d2) (l1 ++ l2).
Proof.
  intros H1 H2. induction H1 as [| a d l _ IH | a d l _ IH]; cbn.
  - exact H2.
  - apply subsequence_keep, IH.
  - apply subsequence_skip, IH.
Qed.

Lemma subsequence_in {A} (d l : list A) (x : A) :
  subsequence d l -> In x d -> In x l.
Proof.
  intros H. induction H as [| a d l _ IH | a d l _ IH]; cbn; intros Hx.
  - exact Hx.
  - destruct Hx as [Hx | Hx]; [left; exact Hx | right; apply IH, Hx].
  - right. apply IH, Hx.
Qed.

(** Picking values out of an ordered list leaves them ordered, and so never
    going down from one to the next. *)
Lemma ordered_subsequence (d l : list float) :
  subsequence d l -> ordered l = true -> ordered d = true.
Proof.
  intros H. induction H as [| a d l Hs IH | a d l _ IH]; cbn [ordered];
    intros Ho.
  - reflexivity.
  - apply andb_true_iff in Ho. destruct Ho as [Ha Hl].
    apply andb_true_iff. split; [| apply IH, Hl].
    apply forallb_forall. intros x Hx.
    rewrite forallb_forall in Ha. apply Ha, (subsequence_in d l x Hs Hx).
  - apply andb_true_iff in Ho. apply IH, Ho.
Qed.

Lemma ordered_nondecreasing (l : list float) :
  ordered l = true -> nondecreasing l = true.
Proof.
  induction l as [| a l IH]; [reflexivity |].
  cbn [ordered]. intros Ho. apply andb_true_iff in Ho. destruct Ho as [Ha Hl].
  destruct l as [| b l]; [reflexivity |].
  cbn [nondecreasing]. apply andb_true_iff. split; [| apply IH, Hl].
  cbn [forallb] in Ha. apply andb_true_iff in Ha. apply Ha.
Qed.

(** What is at rest was written: the values at rest are picked, in order,
    from the values passed to [setProgress]. *)
Lemma last_progress_subsequence (t : list Event) :
  subsequence (last_progress t) (progress_values t).
Proof.
  unfold last_progress.
  induction (progress_values t) as [| v l _] using rev_ind.
  - constructor.
  - rewrite rev_app_distr. cbn [rev app].
    change [v] with ([] ++ [v]) at 1.
    apply subsequence_app; [apply subsequence_nil_l | apply subsequence_refl].
Qed.

Lemma progress_at_rest_subsequence (pieces : list (list Event)) :
  subsequence (progress_at_rest pieces) (progress_values (concat pieces)).
Proof.
  induction pieces as [| e rest IH]; [constructor |].
  cbn [progress_at_rest flat_map concat]. rewrite progress_values_app.
  apply subsequence_app; [apply last_progress_subsequence | exact IH].
Qed.

Lemma progress_at_rest_app (l1 l2 : list (list Event)) :
  progress_at_rest (l1 ++ l2) = progress_at_rest l1 ++ progress_at_rest l2.
Proof. apply flat_map_app. Qed.

Lemma glue_last_concat (pieces : list (list Event)) (t : list Event) :
  concat (glue_last pieces t) = concat pieces ++ t.
Proof.
  induction pieces as [| e rest IH]; [apply app_nil_r |].
  destruct rest as [| e' rest].
  - cbn. rewrite !app_nil_r. reflexivity.
  - change (glue_last (e :: e' :: rest) t) with (e :: glue_last (e' :: rest) t).
    cbn [concat]. rewrite IH. cbn [concat]. apply app_assoc.
Qed.

Lemma glue_last_snoc (pieces : list (list Event)) (e t : list Event) :
  glue_last (pieces ++ [e]) t = pieces ++ [e ++ t].
Proof.
  induction pieces as [| e0 rest IH]; [reflexivity |].
  cbn [app]. destruct rest as [| e1 rest].
  - reflexivity.
  - change (glue_last (e0 :: (e1 :: rest) ++ [e]) t)
      with (e0 :: glue_last ((e1 :: rest) ++ [e]) t).
    rewrite IH. reflexivity.
Qed.

Lemma arrivals_concat (env : Env) (order : list nat) :
  forall (p : Promises) (s : State),
    concat (arrivals env p order s) = trace (resume_all env p order s).
Proof.
  induction order as [| i rest IH]; intros p s; [reflexivity |].
  cbn [arrivals resume_all]. unfold bind.
  destruct (resume_one env p i s) as [[o s1] t1].
  destruct o as [p1 | e |]; cbn [concat].
  - rewrite IH. destruct (resume_all env p1 rest s1) as [[o2 s2] t2].
    reflexivity.
  - apply app_nil_r.
  - apply app_nil_r.
Qed.

Lemma arrivals_app (env : Env) (a b : list nat) :
  forall (p p' : Promises) (s s' : State) (t : list Event),
    resume_all env p a s = (Return p', s', t) ->
    arrivals env p (a ++ b) s = arrivals env p a s ++ arrivals env p' b s'.
Proof.
  induction a as [| i a IH]; intros p p' s s' t E.
  - cbn in E. injection E as <- <- _. reflexivity.
  - cbn [app arrivals]. cbn [resume_all] in E. unfold bind in E.
    destruct (resume_one env p i s) as [[o s1] t1].
    destruct o as [p1 | e |]; try discriminate.
    destruct (resume_all env p1 a s1) as [[o2 s2] t2] eqn:E2.
    injection E as -> -> _.
    rewrite (IH p1 p' s1 s' t2 E2). reflexivity.
Qed.

(** Each arrival passes at most one value to [setProgress], so over the
    arrivals the values at rest are the values written. *)
Lemma arrivals_at_rest (env : Env) (order : list nat) :
  NoDup order ->
  (forall i, In i order -> i < length analysisSteps) ->
  forall (p : Promises) (s : State),
    (forall i, In i order -> p i = None) ->
    progress_at_rest (arrivals env p order s) =
    climb (length (filter (succeeded env) order)) (progress s).
Proof.
  intros Hnd. induction Hnd as [| i rest Hni _ IH]; intros Hr p s Hp;
    [reflexivity |].
  destruct (nth_error analysisSteps i) as [step |] eqn:Es.
  2:{ apply nth_error_None in Es. specialize (Hr i (or_introl eq_refl)). lia. }
  destruct (resume_one_spec env p i s step Es (Hp i (or_introl eq_refl)))
    as (t1 & E1 & Hpv1 & _).
  cbn [arrivals filter]. rewrite E1.
  cbn [progress_at_rest flat_map]. unfold last_progress at 1. rewrite Hpv1.
  change (flat_map last_progress ?l) with (progress_at_rest l).
  rewrite IH.
  - destruct (succeeded env i); cbn [rev app length climb];
      destruct s; reflexivity.
  - intros j Hj. apply Hr. right. exact Hj.
  - intros j Hj. cbn. destruct (Nat.eqb j i) eqn:Eji.
    + apply Nat.eqb_eq in Eji. subst j. contradiction.
    + apply Hp. right. exact Hj.
Qed.

Lemma fan_out_trace (env : Env) (s : State) :
  trace (fan_out env s) =
  launch_events analysisSteps
  ++ trace (resume_all env no_promise_settled (arrival env)
              (with_loadingStage s
                 (last (map stage analysisSteps) (loadingStage s))))
  ++ join_trace env
       (with_loadingStage s (last (map stage analysisSteps) (loadingStage s))).
Proof.
  unfold fan_out, join_trace, bind. rewrite launch_all_spec.
  destruct (resume_all env no_promise_settled (arrival env) _) as [[o s1] t1].
  destruct o as [p | e |]; cbn [trace snd].
  - destruct (join_results p s1) as [[o2 s2] t2]. reflexivity.
  - rewrite app_nil_r. reflexivity.
  - rewrite app_nil_r. reflexivity.
Qed.

(** The pieces, put end to end, are the trace of the run. *)
Lemma episodes_trace (env : Env) (s : State) :
  url s <> "" -> concat (episodes env s) = trace (run env s).
Proof.
  intros Hu. rewrite (run_nonempty env s Hu). unfold episodes.
  destruct (url s) as [| c r] eqn:Eu; [contradiction |].
  destruct (extraction (parse_reply env)) as [v | e |];
    [| apply app_nil_r | apply app_nil_r].
  cbn [concat]. rewrite glue_last_concat. cbn [concat].
  rewrite arrivals_concat.
  pose proof (fan_out_trace env (analysing (String c r))) as Ht.
  destruct (fan_out env (analysing (String c r))) as [[o s'] t].
  cbn [trace snd] in Ht |- *. rewrite Ht.
  rewrite <- !app_assoc. reflexivity.
Qed.

(** The values at rest in a complete run after a successful extraction: 0,
    the share of the extraction, one more share for each successful step
    among the first four to answer, and 100 when some step succeeded. *)
Lemma progress_at_rest_complete (env : Env) (s : State) (v : Value) :
  url s <> "" ->
  extraction (parse_reply env) = Return v ->
  complete (arrival env) ->
  exists k,
    k < length analysisSteps /\ k <= successes env
    /\ progress_at_rest (episodes env s) =
       [0%float; share] ++ climb k share
         ++ (if Nat.eqb (successes env) 0 then [] else [100%float]).
Proof.
  intros Hu Hx Hperm. unfold complete in Hperm.
  assert (Hnd : NoDup (arrival env))
    by (apply (Permutation_NoDup (Permutation_sym Hperm)), seq_NoDup).
  assert (Hrange : forall i, In i (arrival env) -> i < length analysisSteps).
  { intros i Hi. apply (Permutation_in _ Hperm), in_seq in Hi. lia. }
  assert (Hk : length (filter (succeeded env) (arrival env)) = successes env)
    by (apply filter_length_perm; exact Hperm).
  assert (Hlen : length (arrival env) = length analysisSteps).
  { rewrite (Permutation_length Hperm). apply length_seq. }
  unfold episodes. destruct (url s) as [| c r] eqn:Eu; [contradiction |].
  rewrite Hx. set (u := String c r). set (s0 := launched u).
  (* the arrival that settles the last promise *)
  destruct (exists_last (l := arrival env)) as (init & j & Ea).
  { intros E. rewrite E in Hlen. discriminate. }
  rewrite Ea in Hnd, Hrange, Hk, Hlen.
  assert (Hndi : NoDup init) by (apply NoDup_app_remove_r in Hnd; exact Hnd).
  assert (Hj : ~ In j init).
  { intros Hin. apply NoDup_remove_2 in Hnd. rewrite app_nil_r in Hnd.
    contradiction. }
  assert (Hri : forall i, In i init -> i < length analysisSteps).
  { intros i Hi. apply Hrange, in_or_app. left. exact Hi. }
  assert (Hrj : j < length analysisSteps).
  { apply Hrange, in_or_app. right. left. reflexivity. }
  destruct (resume_all_spec env init Hndi Hri no_promise_settled s0
              (fun _ _ => eq_refl))
    as (pi & ti & Ei & Hpi & _).
  set (si := with_progress s0
               (raise (length (filter (succeeded env) init)) (progress s0)))
    in Ei.
  destruct (nth_error analysisSteps j) as [step |] eqn:Es.
  2:{ apply nth_error_None in Es. lia. }
  assert (Hpj : pi j = None).
  { rewrite Hpi. destruct (existsb (Nat.eqb j) init) eqn:Ex; [| reflexivity].
    apply existsb_exists in Ex. destruct Ex as (x & Hx' & Exj).
    apply Nat.eqb_eq in Exj. subst x. contradiction. }
  destruct (resume_one_spec env pi j si step Es Hpj)
    as (tj & Ej & Hpvj & _).
  (* the whole arrival and the join *)
  assert (Hnd' : NoDup (arrival env)) by (rewrite Ea; exact Hnd).
  assert (Hrange' : forall i, In i (arrival env) -> i < length analysisSteps)
    by (rewrite Ea; exact Hrange).
  destruct (resume_all_spec env (arrival env) Hnd' Hrange' no_promise_settled
              s0 (fun _ _ => eq_refl))
    as (p' & t1 & E1 & Hp' & _).
  assert (Hall : forall i, i < length analysisSteps -> p' i = promise_of env i).
  { intros i Hi. rewrite Hp'.
    assert (Hin : In i (arrival env)).
    { apply (Permutation_in _ (Permutation_sym Hperm)), in_seq. lia. }
    assert (Hex : existsb (Nat.eqb i) (arrival env) = true).
    { apply existsb_exists. exists i. split; [exact Hin | apply Nat.eqb_refl]. }
    rewrite Hex. reflexivity. }
  match type of E1 with _ = (_, ?st, _) => set (s1 := st) in E1 end.
  destruct (join_results_spec env p' s1 Hall) as (t2 & E2 & Hpv2 & _).
  assert (Hjt : progress_values (join_trace env s0) =
                if Nat.eqb (successes env) 0 then [] else [100%float]).
  { unfold join_trace. rewrite E1, E2. cbn [trace snd].
    rewrite progress_values_app, Hpv2.
    destruct (Nat.eqb (successes env) 0); reflexivity. }
  (* the pieces *)
  exists (length (filter (succeeded env) init)).
  rewrite filter_app, length_app in Hk.
  rewrite length_app in Hlen. cbn [length] in Hlen.
  split; [pose proof (filter_length_le (succeeded env) init); lia |].
  split; [lia |].
  rewrite Ea at 1.
  rewrite (arrivals_app env init [j] no_promise_settled pi s0 si ti Ei).
  cbn [arrivals]. rewrite Ej.
  rewrite app_comm_cons, glue_last_snoc.
  change (progress_at_rest (?a :: ?l)) with (last_progress a ++ progress_at_rest l).
  rewrite <- app_comm_cons.
  change (progress_at_rest (?a :: ?l))
    with (last_progress a ++ progress_at_rest l).
  rewrite !progress_at_rest_app.
  rewrite (arrivals_at_rest env init Hndi Hri no_promise_settled s0
             (fun _ _ => eq_refl)).
  cbn [progress_at_rest flat_map]. rewrite app_nil_r.
  { assert (Hl1 : last_progress (prelude u) = [0%float]) by reflexivity.
    assert (Hl2 : last_progress (Progress share :: launch_events analysisSteps)
                  = [share]) by reflexivity.
    assert (Hl3 : last_progress (tj ++ join_trace env s0) =
                  if Nat.eqb (successes env) 0 then [] else [100%float]).
    { unfold last_progress. rewrite progress_values_app, Hpvj, Hjt.
      destruct (Nat.eqb (successes env) 0) eqn:E0.
      - apply Nat.eqb_eq in E0. rewrite E0 in Hk.
        destruct (succeeded env j) eqn:Esj; [| reflexivity].
        cbn [filter] in Hk. rewrite Esj in Hk. cbn [length] in Hk. lia.
      - rewrite rev_app_distr. reflexivity. }
    rewrite Hl1, Hl2, Hl3. reflexivity. }
Qed.



(* ================================================================= *)
(** ** Requests *)

Lemma launch_events_requests (steps : list AnalysisStep) :
  requests (launch_events steps) = requests (map llm_request steps).
Proof.
  induction steps as [| step rest IH]; [reflexivity |].
  cbn [launch_events flat_map map]. unfold requests in *.
  cbn [flat_map app]. f_equal. exact IH.
Qed.

(** After a successful extraction the handler issues exactly one request per
    catalog step, in catalog order, after the extraction request: whatever
    the analysis calls answer and in whatever order they do, nothing is
    retried and no step is skipped. *)
Theorem requests_once (env : Env) (s : State) (v : Value) :
  url s <> "" ->
  extraction (parse_reply env) = Return v ->
  requests (trace (run env s)) =
    requests (parse_request (url s) :: map llm_request analysisSteps)
  /\ length (requests (trace (run env s))) = totalSteps.
Proof.
  intros Hu Hx.
  assert (E : requests (trace (run env s)) =
              requests (parse_request (url s) :: map llm_request analysisSteps)).
  { rewrite (run_nonempty env s Hu), Hx.
    destruct (fan_out_quiet env (analysing (url s))) as (t & Et & _ & Hrq & _).
    destruct (fan_out env (analysing (url s))) as [[o s'] tr].
    cbn [trace fst snd] in *. subst tr.
    rewrite !requests_app, launch_events_requests, Hrq, app_nil_r.
    reflexivity. }
  split; [exact E |]. rewrite E. reflexivity.
Qed.

Lemma requests_once_witness :
  requests (trace (run two_succeed (initial example_url))) =
    requests (parse_request example_url :: map llm_request analysisSteps)
  /\ length (requests (trace (run two_succeed (initial example_url))))
     = totalSteps.
Proof.
  apply (requests_once two_succeed (initial example_url) (Object [])).
  - discriminate.
  - reflexivity.
Defined.

(* ================================================================= *)
(** ** What a run keeps of the state it starts from *)

(** A run on a non-empty URL depends on the URL only: the loading flag, the
    stage, the progress, the error and the results of an earlier run never
    show in its outcome, its final state or its trace. *)
Theorem run_forgets_previous_state (env : Env) (s s' : State) :
  url s <> "" ->
  url s' = url s ->
  run env s' = run env s.
Proof.
  intros Hu E.
  rewrite (run_nonempty env s Hu).
  rewrite (run_nonempty env s') by (rewrite E; exact Hu).
  rewrite E. reflexivity.
Qed.

Lemma run_forgets_previous_state_witness :
  run two_succeed (leftover example_url) = run two_succeed (initial example_url).
Proof.
  apply (run_forgets_previous_state two_succeed (initial example_url)
           (leftover example_url)).
  - discriminate.
  - reflexivity.
Defined.

(* ================================================================= *)
(** ** A response that never arrives *)

Lemma resume_one_other (env : Env) (p : Promises) (i j : nat) (s : State) :
  j <> i ->
  match outcome (resume_one env p i s) with
  | Return p1 => p1 j = p j
  | _ => True
  end.
Proof.
  intros Hj. unfold resume_one.
  destruct (nth_error analysisSteps i) as [step |]; [| reflexivity].
  destruct (p i); [reflexivity |].
  unfold bind, settle, outcome.
  destruct (step_resume step (llm_reply env i) s) as [[o s1] t1].
  destruct o; cbn [fst ret]; trivial;
    unfold record; apply Nat.eqb_neq in Hj; rewrite Hj; reflexivity.
Qed.

Lemma resume_all_other (env : Env) (order : list nat) (j : nat) :
  ~ In j order ->
  forall (p : Promises) (s : State),
    match outcome (resume_all env p order s) with
    | Return p' => p' j = p j
    | _ => True
    end.
Proof.
  induction order as [| i rest IH]; intros Hj p s; [reflexivity |].
  cbn [resume_all]. unfold bind, outcome.
  assert (Hji : j <> i) by (intros ->; apply Hj; left; reflexivity).
  pose proof (resume_one_other env p i j s Hji) as H1. unfold outcome in H1.
  destruct (resume_one env p i s) as [[o s1] t1]. cbn [fst] in H1.
  destruct o as [p1 | e |]; cbn [fst]; trivial.
  assert (Hrest : ~ In j rest) by (intros H; apply Hj; right; exact H).
  pose proof (IH Hrest p1 s1) as H2. unfold outcome in H2.
  destruct (resume_all env p1 rest s1) as [[o2 s2] t2]. cbn [fst] in *.
  destruct o2; trivial. rewrite H2. exact H1.
Qed.

Lemma collect_none {A} (l : list (option A)) : In None l -> collect l = None.
Proof.
  induction l as [| [a |] l IH]; intros H; [destruct H | | reflexivity].
  cbn [collect]. destruct H as [H | H]; [discriminate |].
  rewrite (IH H). reflexivity.
Qed.

Lemma join_results_pending (p : Promises) (s : State) (j : nat) :
  j < length analysisSteps -> p j = None ->
  join_results p s = (Pending, s, []).
Proof.
  intros Hj Hp. unfold join_results, Promise_allSettled, bind.
  rewrite collect_none; [reflexivity |].
  rewrite <- Hp. apply in_map. apply in_seq. lia.
Qed.

Lemma hung_state (env : Env) (s : State) (v : Value) (j : nat) :
  url s <> "" ->
  extraction (parse_reply env) = Return v ->
  j < length analysisSteps ->
  ~ In j (arrival env) ->
  exists w,
    outcome (run env s) = Pending
    /\ final (run env s) = mkState (url s) true last_label w None None.
Proof.
  intros Hu Hx Hj Hnot.
  rewrite (run_nonempty env s Hu), Hx.
  set (s0 := with_loadingStage (analysing (url s))
               (last (map stage analysisSteps)
                     (loadingStage (analysing (url s))))).
  destruct (resume_all_quiet env (arrival env) no_promise_settled s0)
    as (p' & w & t1 & E1 & _).
  pose proof (resume_all_other env (arrival env) j Hnot no_promise_settled s0)
    as Hp'.
  rewrite E1 in Hp'. cbn [outcome fst] in Hp'.
  assert (E : fan_out env (analysing (url s)) =
              (Pending, with_progress s0 w,
               launch_events analysisSteps ++ t1 ++ [])).
  { unfold fan_out, bind. rewrite launch_all_spec. fold s0. rewrite E1.
    rewrite (join_results_pending p' _ j Hj Hp'). reflexivity. }
  rewrite E. exists w. split; reflexivity.
Qed.

(** The handler sets no time limit: when the response of some catalog step
    never arrives, the run never completes.  The loading flag stays set, the
    stage stays at the last label, and neither an error nor a report is ever
    published, however the other steps ended. *)
Theorem hung_step_blocks_run (env : Env) (s : State) (v : Value) (j : nat) :
  url s <> "" ->
  extraction (parse_reply env) = Return v ->
  j < length analysisSteps ->
  ~ In j (arrival env) ->
  outcome (run env s) = Pending
  /\ isLoading (final (run env s)) = true
  /\ loadingStage (final (run env s)) = last_label
  /\ error (final (run env s)) = None
  /\ results (final (run env s)) = None.
Proof.
  intros Hu Hx Hj Hnot.
  destruct (hung_state env s v j Hu Hx Hj Hnot) as (w & -> & ->).
  repeat split.
Qed.

Lemma hung_step_blocks_run_witness :
  outcome (run one_hangs (initial example_url)) = Pending
  /\ isLoading (final (run one_hangs (initial example_url))) = true
  /\ loadingStage (final (run one_hangs (initial example_url))) = last_label
  /\ error (final (run one_hangs (initial example_url))) = None
  /\ results (final (run one_hangs (initial example_url))) = None.
Proof.
  apply (hung_step_blocks_run one_hangs (initial example_url) (Object []) 2).
  - discriminate.
  - reflexivity.
  - cbn. lia.
  - cbn. intuition discriminate.
Defined.

(* ================================================================= *)
(** ** How a run ends *)

Lemma or_else_nonempty (m fallback : string) :
  fallback <> "" -> or_else m fallback <> "".
Proof. intros H. destruct m; [exact H | discriminate]. Qed.

Lemma run_end_cases (env : Env) (s : State) :
  url s <> "" ->
  complete (arrival env) ->
  outcome (run env s) = Return tt
  /\ isLoading (final (run env s)) = false
  /\ ((error (final (run env s)) = None
       /\ exists report,
            results (final (run env s)) = Some report /\ report <> [])
      \/ (results (final (run env s)) = None
          /\ exists msg,
               error (final (run env s)) = Some msg /\ msg <> "")).
Proof.
  intros Hu Hc.
  destruct (extraction (parse_reply env)) as [v | e |] eqn:Hx.
  - destruct (run_complete env s v Hu Hx Hc) as (t & E & _). rewrite E.
    cbn [outcome final fst snd].
    destruct (Nat.eqb (successes env) 0) eqn:Ek;
      cbn [isLoading error results].
    + split; [reflexivity |]. split; [reflexivity |]. right.
      split; [reflexivity |]. eexists. split; [reflexivity | discriminate].
    + split; [reflexivity |]. split; [reflexivity |]. left.
      split; [reflexivity |]. eexists. split; [reflexivity |].
      intros Hnil. apply Nat.eqb_neq in Ek. apply Ek.
      rewrite <- successful_keys_length, <- gains_keys, Hnil. reflexivity.
  - rewrite (run_nonempty env s Hu), Hx.
    cbn [outcome final fst snd isLoading error results].
    split; [reflexivity |]. split; [reflexivity |]. right.
    split; [reflexivity |]. eexists. split; [reflexivity |].
    apply or_else_nonempty. discriminate.
  - exfalso. exact (extraction_settles _ Hx).
Qed.

(** When every response arrives, a run on a non-empty URL ends with the
    loading flag cleared and with exactly one of the two: a report that is
    not empty and no error, or an error message that is not empty and no
    report.  This covers a failed extraction as well as both ends of the
    fan-out. *)
Theorem run_ends_with_error_xor_report (env : Env) (s : State) :
  url s <> "" ->
  complete (arrival env) ->
  outcome (run env s) = Return tt
  /\ isLoading (final (run env s)) = false
  /\ ((error (final (run env s)) = None
       /\ exists report,
            results (final (run env s)) = Some report /\ report <> [])
      \/ (results (final (run env s)) = None
          /\ exists msg,
               error (final (run env s)) = Some msg /\ msg <> "")).
Proof.
  intros Hu Hc.
  destruct (extraction (parse_reply env)) as [v | e |] eqn:Hx.
  - destruct (run_complete env s v Hu Hx Hc) as (t & E & _). rewrite E.
    cbn [outcome final fst snd].
    destruct (Nat.eqb (successes env) 0) eqn:Ek;
      cbn [isLoading error results].
    + split; [reflexivity |]. split; [reflexivity |]. right.
      split; [reflexivity |]. eexists. split; [reflexivity | discriminate].
    + split; [reflexivity |]. split; [reflexivity |]. left.
      split; [reflexivity |]. eexists. split; [reflexivity |].
      intros Hnil. apply Nat.eqb_neq in Ek. apply Ek.
      rewrite <- successful_keys_length, <- gains_keys, Hnil. reflexivity.
  - rewrite (run_nonempty env s Hu), Hx.
    cbn [outcome final fst snd isLoading error results].
    split; [reflexivity |]. split; [reflexivity |]. right.
    split; [reflexivity |]. eexists. split; [reflexivity |].
    apply or_else_nonempty. discriminate.
  - exfalso. exact (extraction_settles _ Hx).
Qed.

Lemma run_ends_with_error_xor_report_witness :
  outcome (run all_fail (initial example_url)) = Return tt
  /\ isLoading (final (run all_fail (initial example_url))) = false
  /\ ((error (final (run all_fail (initial example_url))) = None
       /\ exists report,
            results (final (run all_fail (initial example_url))) = Some report
            /\ report <> [])
      \/ (results (final (run all_fail (initial example_url))) = None
          /\ exists msg,
               error (final (run all_fail (initial example_url))) = Some msg
               /\ msg <> "")).
Proof.
  apply (run_ends_with_error_xor_report all_fail (initial example_url)).
  - discriminate.
  - apply Permutation_refl.
Defined.

(* ================================================================= *)
(** ** When the API helpers succeed *)

(** [parseWebsite] returns exactly when the response is 2xx and its body is
    JSON; what it returns is the parsed body.  A 2xx response whose body is
    not JSON makes it throw, although the handler never looks at the value. *)
Theorem parseWebsite_succeeds_iff (reply : FetchOutcome) (v : Value) :
  extraction reply = Return v
  <-> exists b, reply = replies_ok b /\ Json.parse b = Some v.
Proof.
  unfold extraction, outcome, parseWebsite_resume, bind, try_catch,
    response_json, JSON_parse, replies_ok.
  split.
  - destruct reply as [e | [o b]]; [discriminate |].
    cbn [await_fetch ret ok body negb].
    destruct o; cbn [negb].
    + destruct (Json.parse b) as [w |] eqn:Eb; [| discriminate].
      cbn. intros H. injection H as <-. exists b.
      split; [reflexivity | exact Eb].
    + destruct (Json.parse b) as [w |]; cbn [ret fst].
      * destruct (get_prop w "error"); discriminate.
      * discriminate.
  - intros (b & -> & Hb). cbn [await_fetch ret ok body negb]. rewrite Hb.
    reflexivity.
Qed.

Lemma analysis_ok (b : string) (data : Value) :
  Json.parse b = Some data ->
  analysis (replies_ok b) = outcome (coerce data (initial ""))
  /\ analysis_log (replies_ok b) = trace (coerce data (initial "")).
Proof.
  intros Hb.
  unfold analysis, analysis_log, outcome, trace, fetchAnalysis_resume, bind,
    response_json, JSON_parse, replies_ok.
  cbn [await_fetch ret ok body negb]. rewrite Hb. cbn [ret].
  destruct (coerce data (initial "")) as [[o s] t]. split; reflexivity.
Qed.

(** What a reply must be for the analysis call to return [v]. *)
Lemma analysis_return_cases (reply : FetchOutcome) (v : Value) :
  analysis reply = Return v ->
  exists b data answer,
    reply = replies_ok b /\ Json.parse b = Some data
    /\ get_prop data "answer" = inr answer
    /\ ((typeof answer = "object"%string /\ v = answer)
        \/ (exists text m,
              answer = Str text /\ match_braces text = Some m
              /\ Json.parse m = Some v)).
Proof.
  destruct reply as [e | [o b]]; [discriminate |].
  destruct o; [| discriminate].
  destruct (Json.parse b) as [data |] eqn:Eb.
  - change (Responds (mkResponse true b)) with (replies_ok b).
    rewrite (proj1 (analysis_ok b data Eb)).
    destruct (get_prop data "answer") as [e | answer] eqn:Ea.
    + unfold coerce, try_catch, bind, outcome. rewrite Ea. discriminate.
    + destruct (String.eqb (typeof answer) "object") eqn:Et.
      * apply String.eqb_eq in Et.
        rewrite (coerce_object data answer _ Ea Et). cbn [outcome fst].
        intros H. injection H as <-.
        exists b, data, answer. repeat split; try assumption.
        left. split; [exact Et | reflexivity].
      * destruct answer as [| | bo | mz ez | text | items | props];
          try (unfold coerce, try_catch, bind, outcome; rewrite Ea;
               cbn [lift ret]; rewrite Et; discriminate).
        rewrite (coerce_text data text _ Ea).
        destruct (match_braces text) as [m |] eqn:Em; [| discriminate].
        destruct (Json.parse m) as [w |] eqn:Ew; [| discriminate].
        cbn [outcome fst]. intros H. injection H as <-.
        exists b, data, (Str text). repeat split; try assumption.
        right. exists text, m. repeat split; assumption.
  - unfold analysis, outcome, fetchAnalysis_resume, bind, response_json,
      JSON_parse.
    cbn [await_fetch ret ok body negb]. rewrite Eb. discriminate.
Qed.

(** [fetchAnalysis] returns [v] exactly when the response is 2xx, its body is
    JSON, and the [answer] of the parsed body either is an object (an array
    or [null] included), which is then [v] itself, or is text whose stretch
    from the first opening brace to the last closing brace parses to [v]. *)
Theorem fetchAnalysis_succeeds_iff (reply : FetchOutcome) (v : Value) :
  analysis reply = Return v
  <-> exists b data answer,
        reply = replies_ok b /\ Json.parse b = Some data
        /\ get_prop data "answer" = inr answer
        /\ ((typeof answer = "object"%string /\ v = answer)
            \/ (exists text m,
                  answer = Str text /\ match_braces text = Some m
                  /\ Json.parse m = Some v)).
Proof.
  split; [apply analysis_return_cases |].
  intros (b & data & answer & -> & Hb & Ha & [[Ht ->] | (text & m & -> & Hm & Hv)]);
    rewrite (proj1 (analysis_ok b data Hb)).
  - rewrite (coerce_object data answer _ Ha Ht). reflexivity.
  - rewrite (coerce_text data text _ Ha), Hm, Hv. reflexivity.
Qed.

(* ================================================================= *)
(** ** The results are objects *)

Ltac crack H :=
  repeat match type of H with
         | context [match ?x with _ => _ end] =>
             destruct x eqn:?; try discriminate H
         end.

Lemma members_object (fuel : nat) :
  forall acc s v rest,
    Json.members fuel acc s = Some (v, rest) -> exists props, v = Object props.
Proof.
  induction fuel as [| f IH]; intros acc s v rest H; [discriminate |].
  cbn [Json.members] in H. crack H;
    first [exact (IH _ _ _ _ H) | injection H as <- _; eexists; reflexivity].
Qed.

(** Text that starts with an opening brace parses, if at all, to an object. *)
Lemma parse_brace_object (r : string) (v : Value) :
  Json.parse (String "{" r) = Some v -> exists props, v = Object props.
Proof.
  unfold Json.parse. intros H.
  destruct (Json.value (S (String.length (String "{" r))) (String "{" r))
    as [[w rest] |] eqn:E; [| discriminate].
  assert (Hw : exists props, w = Object props).
  { cbn [Json.value Json.skip_ws Json.is_ws Ascii.eqb Bool.eqb orb] in E.
    crack E;
      first [exact (members_object _ _ _ _ _ E)
            | injection E as <- _; eexists; reflexivity]. }
  destruct (Json.skip_ws rest); [| discriminate].
  injection H as <-. exact Hw.
Qed.

Lemma analysis_object (reply : FetchOutcome) (v : Value) :
  analysis reply = Return v -> typeof v = "object"%string.
Proof.
  intros H.
  destruct (analysis_return_cases reply v H)
    as (b & data & answer & _ & _ & _ & [[Ht ->] | (text & m & _ & Hm & Hv)]).
  - exact Ht.
  - destruct (match_braces_some text m Hm) as (pre & mid & post & _ & -> & _).
    destruct (parse_brace_object _ v Hv) as (props & ->). reflexivity.
Qed.

(** Whatever [fetchAnalysis] returns is an object in the sense of [typeof]
    (an array or [null] included): never a string, a number, a boolean or
    [undefined]. *)
Theorem fetchAnalysis_result_is_object (reply : FetchOutcome) (v : Value) :
  analysis reply = Return v -> typeof v = "object"%string.
Proof.
  intros H.
  destruct (analysis_return_cases reply v H)
    as (b & data & answer & _ & _ & _ & [[Ht ->] | (text & m & _ & Hm & Hv)]).
  - exact Ht.
  - destruct (match_braces_some text m Hm) as (pre & mid & post & _ & -> & _).
    destruct (parse_brace_object _ v Hv) as (props & ->). reflexivity.
Qed.

Lemma fetchAnalysis_result_is_object_witness :
  typeof (Object []) = "object"%string.
Proof.
  apply (fetchAnalysis_result_is_object
           (replies_ok (answer_empty_object)) (Object [])).
  reflexivity.
Defined.

Lemma gains_in (l : list (AnalysisStep * Outcome Value)) (k : string) (v : Value) :
  In (k, v) (gains l) ->
  exists step, In (step, Return v) l /\ k = key step.
Proof.
  induction l as [| [step o] rest IH]; intros H; [destruct H |].
  unfold gains in H. cbn [flat_map fst snd] in H.
  apply in_app_or in H. destruct H as [H | H].
  - destruct o as [w | e |]; [| destruct H ..].
    destruct H as [H | []].
    injection H as <- <-. exists step. split; [left |]; reflexivity.
  - destruct (IH H) as (st & Hin & Hk). exists st. split; [right |]; assumption.
Qed.

(** Every entry of a published report sits under a catalog key and holds an
    object in the sense of [typeof]. *)
Theorem report_entries_are_objects (env : Env) (s : State)
    (report : FullAnalysisResult) :
  url s <> "" ->
  complete (arrival env) ->
  results (final (run env s)) = Some report ->
  forall k v, In (k, v) report ->
    In k (map key analysisSteps) /\ typeof v = "object"%string.
Proof.
  intros Hu Hc Hr k v Hin.
  destruct (extraction (parse_reply env)) as [w | e |] eqn:Hx.
  - destruct (run_complete env s w Hu Hx Hc) as (t & E & _).
    rewrite E in Hr. cbn [final fst snd] in Hr.
    destruct (Nat.eqb (successes env) 0); cbn [results] in Hr;
      [discriminate |].
    assert (Hrep : report = gains (outcomes env)) by congruence.
    rewrite Hrep in Hin.
    destruct (gains_in _ k v Hin) as (step & Hstep & ->).
    unfold outcomes in Hstep. apply in_map_iff in Hstep.
    destruct Hstep as ([i st] & Heq & Hi). cbn [fst snd] in Heq.
    injection Heq as -> Ha. split.
    + apply in_map. unfold indexed in Hi. exact (in_combine_r _ _ _ _ Hi).
    + exact (analysis_object _ v Ha).
  - rewrite (run_nonempty env s Hu), Hx in Hr. discriminate.
  - exfalso. exact (extraction_settles _ Hx).
Qed.

Lemma report_entries_are_objects_witness :
  In "healthGrade"%string (map key analysisSteps)
  /\ typeof (Object []) = "object"%string.
Proof.
  apply (report_entries_are_objects two_succeed (initial example_url)
           [("foodPreference", Object []); ("healthGrade", Object [])]).
  - discriminate.
  - unfold complete. cbn.
    apply Permutation_cons_app with (l1 := [0; 1; 2; 3]) (l2 := []).
    apply Permutation_cons_app with (l1 := [0]) (l2 := [2; 3]).
    apply Permutation_cons_app with (l1 := [0; 2]) (l2 := []).
    apply Permutation_refl.
  - reflexivity.
  - right. left. reflexivity.
Defined.

(* ================================================================= *)
(** ** Errors of an analysis call *)

(** Failures met before the [try] block leave [fetchAnalysis] as they are and
    write nothing to the console: a rejected [fetch] passes its error on; a
    non-2xx response gives the message [API call failed: ] followed by the
    raw body, which is not read as JSON; a 2xx body that is not JSON gives
    the parser's [SyntaxError], not the invalid-format error.  A 2xx body
    that is the JSON [null] gives the [TypeError] of reading [data.answer],
    raised a second time inside the [catch] block before it can log. *)
Theorem fetchAnalysis_early_failures :
  (forall e, analysis (NetworkError e) = Throw e
             /\ analysis_log (NetworkError e) = [])
  /\ (forall b,
        analysis (replies_failure b)
          = Throw (mkExn KError ("API call failed: " ++ b)%string)
        /\ analysis_log (replies_failure b) = [])
  /\ (forall b, Json.parse b = None ->
        analysis (replies_ok b) = Throw syntax_error
        /\ analysis_log (replies_ok b) = [])
  /\ (forall b, Json.parse b = Some Null ->
        analysis (replies_ok b) = Throw cannot_read
        /\ analysis_log (replies_ok b) = []).
Proof.
  split; [split; reflexivity |]. split; [split; reflexivity |]. split.
  - intros b Hb.
    unfold analysis, analysis_log, outcome, trace, fetchAnalysis_resume, bind,
      response_json, JSON_parse, replies_ok.
    cbn [await_fetch ret ok body negb]. rewrite Hb. split; reflexivity.
  - intros b Hb. destruct (analysis_ok b Null Hb) as [-> ->].
    split; reflexivity.
Qed.

Lemma fetchAnalysis_early_failures_witness :
  (analysis (replies_ok "<html>") = Throw syntax_error
   /\ analysis_log (replies_ok "<html>") = [])
  /\ (analysis (replies_ok " null ") = Throw cannot_read
      /\ analysis_log (replies_ok " null ") = []).
Proof.
  split.
  - apply (proj1 (proj2 (proj2 fetchAnalysis_early_failures))). reflexivity.
  - apply (proj2 (proj2 (proj2 fetchAnalysis_early_failures))). reflexivity.
Defined.

(** [fetchAnalysis] writes to the console in one situation only: the response
    was 2xx, its body was JSON, and the [answer] found there was neither an
    object nor text holding JSON between braces.  It then writes one line,
    which holds that [answer], and throws the invalid-format error. *)
Theorem fetchAnalysis_logs_only_uncoercible (reply : FetchOutcome) :
  analysis_log reply = []
  \/ exists b data answer e,
       reply = replies_ok b /\ Json.parse b = Some data
       /\ get_prop data "answer" = inr answer
       /\ typeof answer <> "object"%string
       /\ analysis_log reply = [raw_log e answer]
       /\ analysis reply = Throw invalid_format.
Proof.
  destruct reply as [e | [o b]]; [left; reflexivity |].
  destruct o; [| left; reflexivity].
  change (Responds (mkResponse true b)) with (replies_ok b).
  destruct (Json.parse b) as [data |] eqn:Eb.
  - destruct (analysis_ok b data Eb) as [Ea El]. rewrite Ea, El.
    destruct (get_prop data "answer") as [e | answer] eqn:Eg.
    + left. unfold coerce, try_catch, bind, trace. rewrite Eg. reflexivity.
    + destruct (String.eqb (typeof answer) "object") eqn:Et.
      * apply String.eqb_eq in Et.
        rewrite (coerce_object data answer _ Eg Et). left. reflexivity.
      * assert (Hne : typeof answer <> "object"%string)
          by (apply String.eqb_neq; exact Et).
        destruct answer as [| | bo | mz ez | text | items | props];
          try discriminate Et;
          try (right; exists b, data; eexists; eexists;
               repeat (split; [eassumption || reflexivity |]);
               unfold coerce, try_catch, bind, outcome, trace; rewrite Eg;
               split; reflexivity).
        rewrite (coerce_text data text _ Eg).
        destruct (match_braces text) as [m |].
        -- destruct (Json.parse m) as [w |]; [left; reflexivity |].
           right. exists b, data, (Str text), syntax_error.
           repeat split; assumption.
        -- right. exists b, data, (Str text), no_json_found.
           repeat split; assumption.
  - left. unfold analysis_log, trace, fetchAnalysis_resume, bind,
      response_json, JSON_parse, replies_ok.
    cbn [await_fetch ret ok body negb]. rewrite Eb. reflexivity.
Qed.

(* ================================================================= *)
(** ** The console of a run *)

Lemma console_app (t1 t2 : list Event) :
  console (t1 ++ t2) = console t1 ++ console t2.
Proof. apply flat_map_app. Qed.

Lemma launch_events_console (steps : list AnalysisStep) :
  console (launch_events steps) = [].
Proof. induction steps as [| step rest IH]; [reflexivity | exact IH]. Qed.

Lemma resume_one_console (env : Env) (p : Promises) (i : nat) (s : State)
    (step : AnalysisStep) :
  nth_error analysisSteps i = Some step ->
  p i = None ->
  console (trace (resume_one env p i s)) = console (analysis_log (llm_reply env i)).
Proof.
  intros Hstep Hp. unfold resume_one. rewrite Hstep, Hp.
  unfold bind, settle. rewrite step_resume_spec.
  pose proof (proj1 (analysis_log_shape (llm_reply env i))) as Hlog.
  destruct (analysis (llm_reply env i)) as [v | e |]; cbn [trace snd ret].
  - rewrite (Hlog v eq_refl). reflexivity.
  - rewrite app_nil_r. reflexivity.
  - reflexivity.
Qed.

Lemma resume_all_console (env : Env) (order : list nat) :
  NoDup order ->
  (forall i, In i order -> i < length analysisSteps) ->
  forall (p : Promises) (s : State),
    (forall i, In i order -> p i = None) ->
    console (trace (resume_all env p order s)) =
    flat_map (fun i => console (analysis_log (llm_reply env i))) order.
Proof.
  induction 1 as [| i rest Hnotin Hnodup IH]; intros Hrange p s Hp;
    [reflexivity |].
  assert (Hi : nth_error analysisSteps i <> None)
    by (apply nth_error_Some, Hrange; left; reflexivity).
  destruct (nth_error analysisSteps i) as [step |] eqn:Hstep;
    [clear Hi | contradiction].
  pose proof (resume_one_console env p i s step Hstep
                (Hp i (or_introl eq_refl))) as Hc1.
  destruct (resume_one_spec env p i s step Hstep (Hp i (or_introl eq_refl)))
    as (t1 & E1 & _).
  rewrite E1 in Hc1. cbn [trace snd] in Hc1.
  cbn [resume_all flat_map]. unfold bind. rewrite E1.
  set (p1 := fun j => if Nat.eqb j i then promise_of env i else p j).
  set (s1 := if succeeded env i
             then with_progress s (progress s + share)%float else s).
  assert (Hp1 : forall j, In j rest -> p1 j = None).
  { intros j Hj. unfold p1. destruct (Nat.eqb j i) eqn:Eji.
    - apply Nat.eqb_eq in Eji. subst j. contradiction.
    - apply Hp. right. exact Hj. }
  specialize (IH (fun j Hj => Hrange j (or_intror Hj)) p1 s1 Hp1).
  destruct (resume_all env p1 rest s1) as [[o2 s2] t2].
  cbn [trace snd] in *. rewrite console_app, Hc1, IH. reflexivity.
Qed.

Lemma reduce_console (l : list Settled) :
  forall (acc : FullAnalysisResult) (s : State),
    console (trace (reduce l acc s)) =
    flat_map (fun r => match r with
                       | Rejected e => [failure_line e]
                       | Fulfilled _ => []
                       end) l.
Proof.
  induction l as [| r rest IH]; intros acc s; [reflexivity |].
  cbn [reduce flat_map]. unfold bind.
  destruct r as [value | reason]; cbn [merge].
  - specialize (IH (spread acc value) s). unfold ret at 1.
    destruct (reduce rest (spread acc value) s) as [[o s'] t].
    exact IH.
  - specialize (IH acc s). unfold console_error, emit, bind, ret at 1.
    destruct (reduce rest acc s) as [[o s'] t].
    cbn [trace snd app] in *. unfold console in *. cbn [flat_map app].
    rewrite IH. reflexivity.
Qed.

Lemma rejected_lines (prs : list (AnalysisStep * Outcome Value))
    (l : list Settled) :
  Forall2 (fun so r => settlement (fst so) (snd so) = Some r) prs l ->
  flat_map (fun r => match r with
                     | Rejected e => [failure_line e]
                     | Fulfilled _ => []
                     end) l
  = failure_lines prs.
Proof.
  induction 1 as [| [step o] r prs l Hr _ IH]; [reflexivity |].
  cbn [flat_map failure_lines fst snd] in *. unfold failure_lines in IH.
  rewrite IH.
  destruct o as [v | e |]; cbn [settlement] in Hr; [| | discriminate];
    injection Hr as <-; reflexivity.
Qed.

Lemma join_results_console (env : Env) (p : Promises) (s : State) :
  (forall j, j < length analysisSteps -> p j = promise_of env j) ->
  console (trace (join_results p s)) = failure_lines (outcomes env).
Proof.
  intros Hp. unfold join_results, Promise_allSettled.
  assert (E : map p (seq 0 (length analysisSteps)) =
              map (fun so => settlement (fst so) (snd so)) (outcomes env)).
  { transitivity (map (promise_of env) (seq 0 (length analysisSteps))).
    - apply map_ext_in. intros j Hj. apply Hp. apply in_seq in Hj. lia.
    - reflexivity. }
  rewrite E.
  destruct (collect_settlements (outcomes env) (outcomes_settle env))
    as (l & El & Hl).
  rewrite El. unfold bind. cbn [ret].
  pose proof (reduce_console l [] s) as Hc.
  destruct (reduce_spec l [] s) as (t & Er & _).
  rewrite Er in Hc |- *. cbn [trace snd] in Hc.
  rewrite (rejected_lines _ _ Hl) in Hc.
  destruct (Nat.eqb (length (Object_keys (fold_left absorb l []))) 0);
    unfold setResults, setProgress, updateProgress, bind, get, put, emit;
    cbn [throw trace snd app]; rewrite ?console_app, Hc;
    cbn [console flat_map]; rewrite ?app_nil_r; reflexivity.
Qed.

(** The console of a complete run after a successful extraction: first the
    raw-response lines of the steps whose answer could not be coerced, in
    the order their responses arrived; then, once every step has settled,
    one line per rejected step, in catalog order, holding the fixed text and
    the rejection reason (and nothing that names the step). *)
Theorem failed_steps_logged (env : Env) (s : State) (v : Value) :
  url s <> "" ->
  extraction (parse_reply env) = Return v ->
  complete (arrival env) ->
  console (trace (run env s)) =
  flat_map (fun i => console (analysis_log (llm_reply env i))) (arrival env)
    ++ failure_lines (outcomes env).
Proof.
  intros Hu Hx Hc. unfold complete in Hc.
  assert (Hnd : NoDup (arrival env))
    by (apply (Permutation_NoDup (Permutation_sym Hc)), seq_NoDup).
  assert (Hrange : forall i, In i (arrival env) -> i < length analysisSteps).
  { intros i Hi. apply (Permutation_in _ Hc), in_seq in Hi. lia. }
  rewrite (run_nonempty env s Hu), Hx.
  set (s0 := with_loadingStage (analysing (url s))
               (last (map stage analysisSteps)
                     (loadingStage (analysing (url s))))).
  pose proof (resume_all_console env (arrival env) Hnd Hrange
                no_promise_settled s0 (fun _ _ => eq_refl)) as Hc1.
  destruct (resume_all_spec env (arrival env) Hnd Hrange no_promise_settled s0
              (fun _ _ => eq_refl)) as (p' & t1 & E1 & Hp' & _).
  rewrite E1 in Hc1. cbn [trace snd] in Hc1.
  assert (Hall : forall j, j < length analysisSteps -> p' j = promise_of env j).
  { intros j Hj. rewrite Hp'.
    assert (Hex : existsb (Nat.eqb j) (arrival env) = true).
    { apply existsb_exists. exists j. split; [| apply Nat.eqb_refl].
      apply (Permutation_in _ (Permutation_sym Hc)), in_seq. lia. }
    rewrite Hex. reflexivity. }
  set (s1 := with_progress s0
               (raise (length (filter (succeeded env) (arrival env)))
                      (progress s0))) in *.
  pose proof (join_results_console env p' s1 Hall) as Hc2.
  assert (E : fan_out env (analysing (url s)) =
              (outcome (join_results p' s1), final (join_results p' s1),
               launch_events analysisSteps ++ t1
                 ++ trace (join_results p' s1))).
  { unfold fan_out, bind. rewrite launch_all_spec. fold s0. rewrite E1.
    destruct (join_results p' s1) as [[o s2] t2]. destruct o; reflexivity. }
  rewrite E. cbn [trace snd].
  rewrite !console_app, launch_events_console, Hc1, Hc2. reflexivity.
Qed.

Lemma failed_steps_logged_witness :
  console (trace (run two_succeed (initial example_url))) =
  flat_map (fun i => console (analysis_log (llm_reply two_succeed i)))
           (arrival two_succeed)
    ++ failure_lines (outcomes two_succeed).
Proof.
  apply (failed_steps_logged two_succeed (initial example_url) (Object [])).
  - discriminate.
  - reflexivity.
  - unfold complete. cbn.
    apply Permutation_cons_app with (l1 := [0; 1; 2; 3]) (l2 := []).
    apply Permutation_cons_app with (l1 := [0]) (l2 := [2; 3]).
    apply Permutation_cons_app with (l1 := [0; 2]) (l2 := []).
    apply Permutation_refl.
Defined.

(* ================================================================= *)
(** ** The match of the regular expression, in full *)

Section BracesInFull.
#[local] Open Scope string_scope.

Lemma append_assoc' (a b c : string) : (a ++ b) ++ c = a ++ b ++ c.
Proof. induction a as [| x a IH]; [reflexivity |]. cbn. rewrite IH. reflexivity. Qed.

Lemma occurs_app (ch : ascii) (a b : string) :
  occurs ch (a ++ b) = occurs ch a || occurs ch b.
Proof.
  induction a as [| x a IH]; [reflexivity |].
  cbn. rewrite IH. apply orb_assoc.
Qed.

Lemma match_braces_finds (a b c : string) :
  match_braces (a ++ "{" ++ b ++ "}" ++ c) <> None.
Proof.
  assert (Hclose : forall x, upto_last_close (x ++ "}" ++ c) <> None).
  { intros x H. apply upto_last_close_none in H.
    rewrite occurs_app in H. cbn in H. rewrite orb_true_r in H.
    discriminate. }
  induction a as [| x a IH]; cbn.
  - destruct (upto_last_close (b ++ String "}" c)) eqn:E; [discriminate |].
    exfalso. exact (Hclose b E).
  - destruct (Ascii.eqb x "{"); [| exact IH].
    destruct (upto_last_close (a ++ String "{" (b ++ String "}" c))) eqn:E;
      [discriminate |].
    exfalso. apply (Hclose (a ++ "{" ++ b)). rewrite append_assoc'. exact E.
Qed.

(** [s.match(/\{[\s\S]*\}/)] is [null] exactly when [s] has no opening brace
    with a closing brace somewhere after it.  Otherwise the match starts at
    the first opening brace of [s] and ends at its last closing brace, and
    matching the match again gives the match itself. *)
Theorem match_braces_in_full (s : string) :
  (match_braces s = None <-> forall a b c, s <> a ++ "{" ++ b ++ "}" ++ c)
  /\ (forall m, match_braces s = Some m ->
        match_braces m = Some m
        /\ exists pre post,
             s = pre ++ m ++ post
             /\ occurs "{" pre = false /\ occurs "}" post = false
             /\ exists mid, m = "{" ++ mid ++ "}").
Proof.
  split; [split |].
  - intros H a b c ->. exact (match_braces_finds a b c H).
  - apply match_braces_none.
  - intros m H.
    destruct (match_braces_some s m H) as (pre & mid & post & -> & -> & Hpre & Hpost).
    split.
    + exact (match_braces_app "" mid "" eq_refl eq_refl).
    + exists pre, post. split; [| split; [exact Hpre | split; [exact Hpost |]]].
      * cbn. rewrite append_assoc'. reflexivity.
      * exists mid. reflexivity.
Qed.

End BracesInFull.

(* ================================================================= *)
(** ** The order of arrival does not show in the result *)

Lemma successes_ext (env env' : Env) :
  (forall i, llm_reply env i = llm_reply env' i) ->
  successes env = successes env'
  /\ gains (outcomes env) = gains (outcomes env').
Proof.
  intros H. split.
  - unfold successes. f_equal. apply filter_ext. intros i.
    unfold succeeded. rewrite H. reflexivity.
  - unfold outcomes. f_equal. apply map_ext. intros [i step].
    cbn [fst snd]. rewrite H. reflexivity.
Qed.

(** Two complete runs on the same URL against the same answers end in the
    same state (same report or same error, same progress, same stage),
    whatever the orders in which the analysis responses arrive. *)
Theorem result_independent_of_arrival (env env' : Env) (s : State) :
  url s <> "" ->
  complete (arrival env) ->
  complete (arrival env') ->
  parse_reply env = parse_reply env' ->
  (forall i, llm_reply env i = llm_reply env' i) ->
  outcome (run env s) = outcome (run env' s)
  /\ final (run env s) = final (run env' s).
Proof.
  intros Hu Hc Hc' Hp Hl.
  destruct (extraction (parse_reply env)) as [v | e |] eqn:Hx.
  - destruct (run_complete env s v Hu Hx Hc) as (t & E & _).
    rewrite Hp in Hx.
    destruct (run_complete env' s v Hu Hx Hc') as (t' & E' & _).
    rewrite E, E'. destruct (successes_ext env env' Hl) as [-> ->].
    split; reflexivity.
  - rewrite (run_nonempty env s Hu), (run_nonempty env' s Hu), <- Hp, Hx.
    split; reflexivity.
  - exfalso. exact (extraction_settles _ Hx).
Qed.

Lemma result_independent_of_arrival_witness :
  outcome (run two_succeed (initial example_url))
    = outcome (run (mkEnv (parse_reply two_succeed) (llm_reply two_succeed)
                      in_order) (initial example_url))
  /\ final (run two_succeed (initial example_url))
    = final (run (mkEnv (parse_reply two_succeed) (llm_reply two_succeed)
                    in_order) (initial example_url)).
Proof.
  apply (result_independent_of_arrival two_succeed
           (mkEnv (parse_reply two_succeed) (llm_reply two_succeed) in_order)
           (initial example_url)).
  - discriminate.
  - unfold complete. cbn.
    apply Permutation_cons_app with (l1 := [0; 1; 2; 3]) (l2 := []).
    apply Permutation_cons_app with (l1 := [0]) (l2 := [2; 3]).
    apply Permutation_cons_app with (l1 := [0; 2]) (l2 := []).
    apply Permutation_refl.
  - apply Permutation_refl.
  - reflexivity.
  - intros i. reflexivity.
Defined.

(* ================================================================= *)
(** ** Instances *)

Lemma extraction_server_message_witness :
  extraction (replies_failure
                ("{" ++ quoted "error" ++ ":" ++ quoted "blocked" ++ "}")%string)
  = Throw (mkExn KError "blocked").
Proof.
  apply (extraction_server_message _ [("error", Str "blocked")] "blocked");
    reflexivity.
Defined.

Lemma extraction_unreadable_body_witness :
  extraction (replies_failure "<html>Bad Gateway</html>")
  = Throw (mkExn KError fallback_message).
Proof. apply (extraction_unreadable_body "<html>Bad Gateway</html>"). reflexivity. Defined.

Lemma progress_nondecreasing_below_five_witness :
  nondecreasing (progress_values (trace (run two_succeed (initial example_url))))
  = true.
Proof.
  apply (progress_nondecreasing_below_five two_succeed (initial example_url)
           (Object [])).
  - discriminate.
  - reflexivity.
  - unfold complete. cbn.
    apply Permutation_cons_app with (l1 := [0; 1; 2; 3]) (l2 := []).
    apply Permutation_cons_app with (l1 := [0]) (l2 := [2; 3]).
    apply Permutation_cons_app with (l1 := [0; 2]) (l2 := []).
    apply Permutation_refl.
  - vm_compute. lia.
Defined.

Lemma progress_hundred_iff_success_witness :
  (progress (final (run all_fail (initial example_url))) = 100%float
   <-> results (final (run all_fail (initial example_url))) <> None)
  /\ (In 100%float (progress_values (trace (run all_fail (initial example_url))))
      <-> results (final (run all_fail (initial example_url))) <> None).
Proof.
  apply (progress_hundred_iff_success all_fail (initial example_url) (Object [])).
  - discriminate.
  - reflexivity.
  - apply Permutation_refl.
Defined.

Lemma parseWebsite_succeeds_iff_witness :
  extraction (replies_ok "{}") = Return (Object []).
Proof.
  apply (proj2 (parseWebsite_succeeds_iff (replies_ok "{}") (Object []))).
  exists "{}". split; reflexivity.
Defined.

Lemma fetchAnalysis_succeeds_iff_witness :
  analysis (replies_ok answer_empty_object) = Return (Object []).
Proof.
  apply (proj2 (fetchAnalysis_succeeds_iff (replies_ok answer_empty_object)
                  (Object []))).
  exists answer_empty_object, (Object [("answer", Object [])]), (Object []).
  repeat split. left. split; reflexivity.
Defined.

(* ================================================================= *)
(** ** What the page shows *)







Lemma lookup_absent (k : string) (l : FullAnalysisResult) :
  ~ In k (map fst l) -> lookup k l = None.
Proof.
  induction l as [| [k' v] l IH]; intros H; [reflexivity |].
  cbn [lookup]. cbn [map fst In] in H.
  destruct (String.eqb k k') eqn:E.
  - apply String.eqb_eq in E. subst. exfalso. apply H. left. reflexivity.
  - apply IH. intros Hin. apply H. right. exact Hin.
Qed.

Lemma gains_key_in (l : list (AnalysisStep * Outcome Value)) (k : string) :
  In k (map fst (gains l)) -> In k (map (fun so => key (fst so)) l).
Proof.
  intros H. apply in_map_iff in H. destruct H as ([k' v] & <- & Hin).
  destruct (gains_in l k' v Hin) as (step & Hstep & ->).
  apply (in_map (fun so => key (fst so)) l (step, Return v) Hstep).
Qed.

(** The report holds, under the key of a step, the value its call returned. *)
Lemma lookup_gains (prs : list (AnalysisStep * Outcome Value))
    (step : AnalysisStep) (o : Outcome Value) :
  NoDup (map (fun so => key (fst so)) prs) ->
  In (step, o) prs ->
  lookup (key step) (gains prs) =
  match o with Return v => Some v | _ => None end.
Proof.
  induction prs as [| [st o'] rest IH]; intros Hnd Hin; [destruct Hin |].
  cbn [map fst] in Hnd. inversion Hnd as [| x xs Hx Hnd']; subst.
  unfold gains. cbn [flat_map fst snd]. fold (gains rest).
  destruct Hin as [Heq | Hin].
  - injection Heq as -> ->.
    destruct o as [v | e |]; cbn [app lookup].
    + rewrite String.eqb_refl. reflexivity.
    + apply lookup_absent. intros H. apply Hx. exact (gains_key_in _ _ H).
    + apply lookup_absent. intros H. apply Hx. exact (gains_key_in _ _ H).
  - assert (Hne : String.eqb (key step) (key st) = false).
    { apply String.eqb_neq. intros E. apply Hx. rewrite <- E.
      apply (in_map (fun so => key (fst so)) rest (step, o) Hin). }
    destruct o' as [v | e |]; cbn [app lookup]; rewrite ?Hne;
      exact (IH Hnd' Hin).
Qed.

Lemma elements_shown (ty : string) (v : Value) : elements ty (shown v) = [].
Proof. destruct v; reflexivity. Qed.

Lemma elements_card (ty component : string) (r : FullAnalysisResult)
    (k : string) :
  elements ty (card component r k) =
  if truthy (field r k) && String.eqb component ty
  then [Element component [("data", AData (field r k))] []]
  else [].
Proof.
  unfold card, and_then. destruct (truthy (field r k)).
  - cbn [elements flat_map andb]. rewrite app_nil_r. reflexivity.
  - apply elements_shown.
Qed.

Lemma zero_successes (env : Env) (i : nat) :
  successes env = 0 -> i < length analysisSteps -> succeeded env i = false.
Proof.
  intros Hz Hi. destruct (succeeded env i) eqn:E; [| reflexivity].
  pose proof (success_counts env i Hi E) as H. rewrite Hz in H. discriminate.
Qed.

(** After a complete run the element tree that [Analysis] returns holds the
    card element of a catalog step exactly when the step's analysis call
    returned a value other than [null], and that value is the element's
    [data].  A step whose answer was [null] counts as successful and has its
    key in the report, yet gets no card element.  What a card element then
    renders to is the card's own matter, and no part of the statement:
    [HealthGradeCard] reads [gradeConfig[data.grade].bg] (lines 192 and 200)
    and throws on data without one of the five grades. *)
Theorem cards_follow_results (env : Env) (s : State) (v : Value)
    (i : nat) (step : AnalysisStep) :
  url s <> "" ->
  extraction (parse_reply env) = Return v ->
  complete (arrival env) ->
  nth_error analysisSteps i = Some step ->
  elements (card_of (key step)) (Analysis (final (run env s))) =
  match analysis (llm_reply env i) with
  | Return Null => []
  | Return w => [Element (card_of (key step)) [("data", AData w)] []]
  | _ => []
  end.
Proof.
  intros Hu Hx Hc Hstep.
  assert (Hi : i < length analysisSteps)
    by (apply nth_error_Some; rewrite Hstep; discriminate).
  destruct (run_complete env s v Hu Hx Hc) as (t & E & _). rewrite E.
  cbn [final fst snd].
  destruct (Nat.eqb (successes env) 0) eqn:Ek.
  - apply Nat.eqb_eq in Ek.
    pose proof (zero_successes env i Ek Hi) as Hf. unfold succeeded in Hf.
    destruct (analysis (llm_reply env i)) as [w | e |]; [discriminate | |];
      do 5 (destruct i as [| i]; [injection Hstep as <-; reflexivity |]);
      destruct i; discriminate.
  - assert (Hfield : field (gains (outcomes env)) (key step) =
                     match analysis (llm_reply env i) with
                     | Return w => w
                     | _ => Undefined
                     end).
    { unfold field.
      rewrite (lookup_gains (outcomes env) step (analysis (llm_reply env i))
                 (keys_distinct env)).
      - destruct (analysis (llm_reply env i)); reflexivity.
      - do 5 (destruct i as [| i];
              [injection Hstep as <-; cbn; tauto |]).
        destruct i; discriminate. }
    pose proof (analysis_object (llm_reply env i)) as Hobj.
    assert (Hcards :
      elements (card_of (key step))
        (Analysis (mkState (url s) false last_label 100 None
                     (Some (gains (outcomes env))))) =
      if truthy (field (gains (outcomes env)) (key step))
      then [Element (card_of (key step))
              [("data", AData (field (gains (outcomes env)) (key step)))] []]
      else []).
    { do 5 (destruct i as [| i];
            [injection Hstep as <-;
             unfold Analysis, page_header, form_card, loading_block,
               error_block, placeholder_block, results_block;
             cbn [isLoading error results negb andb key card_of String.eqb
                  Ascii.eqb Bool.eqb elements flat_map app];
             rewrite !elements_card;
             cbn [String.eqb Ascii.eqb Bool.eqb andb app];
             rewrite ?andb_false_r, ?andb_true_r; cbn [app];
             destruct (truthy (field (gains (outcomes env)) _)); reflexivity |]).
      destruct i; discriminate. }
    rewrite Hcards, Hfield.
    destruct (analysis (llm_reply env i)) as [w | e |]; try reflexivity.
    specialize (Hobj w eq_refl). destruct w; try discriminate Hobj; reflexivity.
Qed.

Lemma cards_follow_results_witness :
  elements (card_of "foodPreference")
    (Analysis (final (run all_null (initial example_url)))) = []
  /\ elements (card_of "foodPreference")
       (Analysis (final (run only_food (initial example_url))))
     = [Element "FoodPreferenceCard"
          [("data", AData (Object [("category", Str "veg")]))] []]
  /\ elements (card_of "healthGrade")
       (Analysis (final (run only_food (initial example_url)))) = [].
Proof.
  split; [| split].
  - apply (cards_follow_results all_null (initial example_url) (Object []) 0
             (mkStep "foodPreference" Prompts.foodPreference
                "2/6 - Analyzing food category...")).
    + discriminate.
    + reflexivity.
    + apply Permutation_refl.
    + reflexivity.
  - apply (cards_follow_results only_food (initial example_url) (Object []) 0
             (mkStep "foodPreference" Prompts.foodPreference
                "2/6 - Analyzing food category...")).
    + discriminate.
    + reflexivity.
    + apply Permutation_refl.
    + reflexivity.
  - apply (cards_follow_results only_food (initial example_url) (Object []) 1
             (mkStep "healthGrade" Prompts.healthGrade
                "3/6 - Calculating health grade...")).
    + discriminate.
    + reflexivity.
    + apply Permutation_refl.
    + reflexivity.
Defined.

(* ================================================================= *)
(** ** The needle of the risk meter *)

(** For every whole score from 0 to 100 the needle angle lies between -90
    and 90 degrees, grows with the score, and is 0 at the score 50: the
    needle stays on the half dial for the scores the prompt asks for.
    Nothing clamps it, and a score of 150 turns it to 180 degrees. *)
Theorem rotation_on_dial (n : nat) :
  n <= 100 ->
  PrimFloat.leb (-90) (rotation (float_of_nat n)) = true
  /\ PrimFloat.leb (rotation (float_of_nat n)) 90 = true
  /\ PrimFloat.ltb (rotation (float_of_nat n)) (rotation (float_of_nat (S n)))
     = true
  /\ rotation 50 = 0%float
  /\ rotation 150 = 180%float.
Proof.
  intros Hn.
  assert (Hall : forallb (fun k =>
                   PrimFloat.leb (-90) (rotation (float_of_nat k))
                   && PrimFloat.leb (rotation (float_of_nat k)) 90
                   && PrimFloat.ltb (rotation (float_of_nat k))
                        (rotation (float_of_nat (S k))))
                   (seq 0 101) = true) by (vm_compute; reflexivity).
  rewrite forallb_forall in Hall.
  assert (Hin : In n (seq 0 101)) by (apply in_seq; lia).
  specialize (Hall n Hin).
  apply andb_true_iff in Hall. destruct Hall as [Hall H3].
  apply andb_true_iff in Hall. destruct Hall as [H1 H2].
  repeat split; try assumption; vm_compute; reflexivity.
Qed.

Lemma rotation_on_dial_witness :
  PrimFloat.leb (-90) (rotation (float_of_nat 25)) = true
  /\ PrimFloat.leb (rotation (float_of_nat 25)) 90 = true
  /\ PrimFloat.ltb (rotation (float_of_nat 25)) (rotation (float_of_nat 26))
     = true
  /\ rotation 50 = 0%float
  /\ rotation 150 = 180%float.
Proof. apply (rotation_on_dial 25). lia. Defined.

Lemma match_braces_in_full_witness :
  match_braces "{x}" = Some "{x}"
  /\ exists pre post,
       "a {x} b"%string = (pre ++ "{x}" ++ post)%string
       /\ occurs "{" pre = false /\ occurs "}" post = false
       /\ exists mid, "{x}"%string = ("{" ++ mid ++ "}")%string.
Proof.
  apply (proj2 (match_braces_in_full "a {x} b") "{x}"). reflexivity.
Defined.
